(** * env_validator: schema extraction and validation of .env files

    A shallow embedding of [env_validator.py].  Python [str] values are
    lists of characters; a character is a code point below 256 (Rocq's
    [ascii]), and the [str] methods used by the program ([strip], [lower],
    [find], ...) are given with Python's behaviour on that range.  The
    regular-expression engine, [float] and [urlparse] belong to Python's
    library, not to the program: they are parameters of the development. *)

From Stdlib Require Import Ascii String DecimalString DecimalZ List Bool Arith
  ZArith Lia.
From Stdlib Require Import Sorting.Sorted Sorting.Permutation.
Import ListNotations.

(** ** Python strings *)

Definition str := list ascii.

Definition py (s : string) : str := list_ascii_of_string s.

Module Py.

(** [str.isspace] on one character: the code points 9-13, 28-32, 133
    and 160 are Python's whitespace below 256. *)
Definition isspace (c : ascii) : bool :=
  let n := nat_of_ascii c in
  ((9 <=? n) && (n <=? 13)) || ((28 <=? n) && (n <=? 32))
  || (n =? 133) || (n =? 160).

(** [s.lstrip(chars)], [s.rstrip(chars)] and [s.strip(chars)] for a
    set of characters given as a predicate. *)
Fixpoint lstrip_by (p : ascii -> bool) (s : str) : str :=
  match s with
  | c :: r => if p c then lstrip_by p r else s
  | [] => []
  end.

Definition rstrip_by (p : ascii -> bool) (s : str) : str :=
  rev (lstrip_by p (rev s)).

Definition strip_by (p : ascii -> bool) (s : str) : str :=
  rstrip_by p (lstrip_by p s).

Definition lstrip : str -> str := lstrip_by isspace.
Definition rstrip : str -> str := rstrip_by isspace.
Definition strip : str -> str := strip_by isspace.

Definition is_char (c : ascii) : ascii -> bool := Ascii.eqb c.

(** [s.strip(c)] and [s.rstrip(c)] for a one-character argument. *)
Definition strip_char (c : ascii) : str -> str := strip_by (is_char c).
Definition rstrip_char (c : ascii) : str -> str := rstrip_by (is_char c).

(** [str.lower] on one character: A-Z and the Latin-1 capitals
    192-222 (except the multiplication sign 215) move up by 32. *)
Definition lower_char (c : ascii) : ascii :=
  let n := nat_of_ascii c in
  if ((65 <=? n) && (n <=? 90))
     || ((192 <=? n) && (n <=? 222) && negb (n =? 215))
  then ascii_of_nat (n + 32) else c.

Definition lower (s : str) : str := map lower_char s.

Definition eqb (a b : str) : bool :=
  if list_eq_dec ascii_dec a b then true else false.

(** [x in xs] for a list of strings. *)
Definition mem (x : str) (xs : list str) : bool := existsb (eqb x) xs.

(** [s.startswith(p)] and [s.endswith(p)]. *)
Fixpoint startswith (s p : str) : bool :=
  match p, s with
  | [], _ => true
  | _ :: _, [] => false
  | a :: p', b :: s' => Ascii.eqb a b && startswith s' p'
  end.

Definition endswith (s p : str) : bool := startswith (rev s) (rev p).

(** [s.find(c)] for a one-character [c]: the first index, if any. *)
Fixpoint find (c : ascii) (s : str) : option nat :=
  match s with
  | [] => None
  | a :: r => if Ascii.eqb a c then Some 0
              else option_map S (find c r)
  end.

(** [sep.join(xs)] for a one-character separator. *)
Fixpoint join (sep : ascii) (xs : list str) : str :=
  match xs with
  | [] => []
  | [x] => x
  | x :: r => x ++ sep :: join sep r
  end.

(** Truth value of a string or list: non-empty. *)
Definition truthy {A} (l : list A) : bool :=
  match l with [] => false | _ => true end.

Definition last_char (s : str) : option ascii :=
  match rev s with [] => None | c :: _ => Some c end.

End Py.

Definition squote : ascii := "'"%char.
Definition dquote : ascii := Ascii false true false false false true false false.
Definition comma : ascii := ","%char.
Definition slash : ascii := "/"%char.
Definition backslash : ascii := "\"%char.
Definition hash : ascii := "#"%char.

(** ** Parsing utilities *)

(** [_strip_quotes]: one pair of matching outer quotes is removed. *)
Definition _strip_quotes (token : str) : str :=
  let token := Py.strip token in
  match token, Py.last_char token with
  | c0 :: rest, Some cl =>
      if (2 <=? length token) && Ascii.eqb c0 cl
         && (Ascii.eqb c0 squote || Ascii.eqb c0 dquote)
      then removelast rest else token
  | _, _ => token
  end.

(** [_parse_default_value_with_quote_info]: [(value, was_quoted)], with
    [None] for the schema's bare None. *)
Definition _parse_default_value_with_quote_info (token : str)
  : option str * bool :=
  let raw := Py.rstrip_char comma (Py.strip token) in
  if Py.eqb (Py.lower raw) (py "none") then (None, false)
  else
    let was_quoted :=
      match raw, Py.last_char raw with
      | c0 :: _, Some cl =>
          (2 <=? length raw)
          && (Ascii.eqb c0 squote || Ascii.eqb c0 dquote)
          && Ascii.eqb cl c0
      | _, _ => false
      end in
    (Some (_strip_quotes raw), was_quoted).

(** *** The list tokenizer *)

(** The local variables of [_tokenize_list]. *)
Record tok_state := mkTok {
  items : list str;
  current : str;
  in_quote : bool;
  quote_char : option ascii;
  in_regex : bool;
  regex_escaped : bool
}.

Definition tok_init : tok_state :=
  mkTok [] [] false None false false.

Definition is_quote_char (st : tok_state) (ch : ascii) : bool :=
  match quote_char st with
  | Some q => Ascii.eqb ch q
  | None => false
  end.

(** One turn of the [while] loop, on the character [ch = s[i]]. *)
Definition tok_step (st : tok_state) (ch : ascii) : tok_state :=
  if in_quote st then
    mkTok (items st) (current st ++ [ch])
          (if is_quote_char st ch then false else true)
          (quote_char st) (in_regex st) (regex_escaped st)
  else if in_regex st then
    if Ascii.eqb ch backslash then
      mkTok (items st) (current st ++ [ch]) false (quote_char st)
            true (negb (regex_escaped st))
    else
      mkTok (items st) (current st ++ [ch]) false (quote_char st)
            (if Ascii.eqb ch slash && negb (regex_escaped st)
             then false else true)
            false
  else if Ascii.eqb ch squote || Ascii.eqb ch dquote then
    mkTok (items st) (current st ++ [ch]) true (Some ch)
          false (regex_escaped st)
  else if Ascii.eqb ch slash then
    mkTok (items st) (current st ++ [ch]) false (quote_char st)
          true false
  else if Ascii.eqb ch comma then
    let token := Py.strip (current st) in
    mkTok (if Py.truthy token then items st ++ [token] else items st)
          [] false (quote_char st) false (regex_escaped st)
  else
    mkTok (items st) (current st ++ [ch]) false (quote_char st)
          false (regex_escaped st).

Definition tok_finish (st : tok_state) : list str :=
  let token := Py.strip (current st) in
  if Py.truthy token then items st ++ [token] else items st.

Definition _tokenize_list (inner : str) : list str :=
  tok_finish (fold_left tok_step (Py.strip inner) tok_init).

(** *** Python's library *)

(** What [re.compile] gives: a pattern, [re.error] with its message, or
    the [ValueError] of a flag the pattern cannot take. *)
Inductive compile_result (P : Type) : Type :=
| Compiled (compiled : P)
| ReError (e : str)
| FlagError (e : str).
Arguments Compiled {P} compiled.
Arguments ReError {P} e.
Arguments FlagError {P} e.

(** What the program takes from Python's library: the [re] engine
    ([re.compile], [Pattern.fullmatch]), [float] with its equality and
    [str], [urlparse] (scheme and netloc, or the message of its
    [ValueError]) and [repr] of a list of strings. *)
Class PythonLib := {
  Pattern : Type;
  re_compile : str -> Z -> compile_result Pattern;
  fullmatch : Pattern -> str -> bool;
  PyFloat : Type;
  float_of_str : str -> option PyFloat;
  float_eq : PyFloat -> PyFloat -> bool;
  float_eq_int : PyFloat -> Z -> bool;
  str_of_float : PyFloat -> str;
  urlparse : str -> (str * str) + str;
  repr_list : list str -> str
}.

(** *** The token interpreter *)

Definition is_letter (c : ascii) : bool :=
  let n := nat_of_ascii c in
  ((65 <=? n) && (n <=? 90)) || ((97 <=? n) && (n <=? 122)).

Definition newline : ascii := ascii_of_nat 10.
Definition carriage_return : ascii := ascii_of_nat 13.
Definition tab : ascii := ascii_of_nat 9.
Definition space : ascii := " "%char.

(** The end of the slash-form regular expression (a run of letters, then
    the dollar anchor): letters up to the end of the string, or up to a
    newline that is its last character. *)
Definition flags_tail (s : str) : option str :=
  if forallb is_letter s then Some s
  else match Py.last_char s with
       | Some c => if Ascii.eqb c newline && forallb is_letter (removelast s)
                   then Some (removelast s) else None
       | None => None
       end.

(** The slash-form match after the opening slash (a lazy run of any
    characters but newline, a slash, the flags): the shortest pattern
    whose closing slash is followed by flags only. *)
Fixpoint slash_form_from (pattern rest : str) : option (str * str) :=
  match rest with
  | [] => None
  | c :: r =>
      match (if Ascii.eqb c slash then flags_tail r else None) with
      | Some fl => Some (pattern, fl)
      | None => if Ascii.eqb c newline then None
                else slash_form_from (pattern ++ [c]) r
      end
  end.

Definition slash_form (unquoted : str) : option (str * str) :=
  match unquoted with
  | c :: rest => if Ascii.eqb c slash then slash_form_from [] rest else None
  | [] => None
  end.

(** [_map_regex_flags], with the values of [re]'s flags. *)
Definition flag_map (ch : ascii) : Z :=
  if Ascii.eqb ch "i" then 2
  else if Ascii.eqb ch "m" then 8
  else if Ascii.eqb ch "s" then 16
  else if Ascii.eqb ch "x" then 64
  else if Ascii.eqb ch "a" then 256
  else if Ascii.eqb ch "L" then 4
  else 0.

Definition _map_regex_flags (flags_str : str) : Z :=
  fold_left (fun flags ch => Z.lor flags (flag_map ch)) flags_str 0%Z.

(** A function that returns or raises [ValueError(msg)]. *)
Inductive raises (A : Type) : Type :=
| Return (a : A)
| ValueError (msg : str).
Arguments Return {A} a.
Arguments ValueError {A} msg.

Inductive allowed_token {L : PythonLib} : Type :=
| Literal (value : str)
| Regex (compiled : Pattern) (display : str).

Definition _interpret_allowed_token {L : PythonLib} (token : str)
  : raises allowed_token :=
  let raw := Py.rstrip_char comma (Py.strip token) in
  let unquoted := _strip_quotes raw in
  match slash_form unquoted with
  | Some (pattern, flags_str) =>
      let flags := _map_regex_flags flags_str in
      match re_compile pattern flags with
      | Compiled compiled =>
          Return (Regex compiled ([slash] ++ pattern ++ [slash] ++ flags_str))
      | ReError e =>
          ValueError (py "Invalid regex in valid_values: /" ++ pattern
                      ++ [slash] ++ flags_str ++ py " (" ++ e ++ py ")")
      | FlagError e => ValueError e
      end
  | None =>
      if Py.startswith (Py.lower unquoted) (py "regex:") then
        let pattern := skipn 6 unquoted in
        match re_compile pattern 0%Z with
        | Compiled compiled => Return (Regex compiled (py "regex:" ++ pattern))
        | ReError e =>
            ValueError (py "Invalid regex in valid_values: regex:" ++ pattern
                        ++ py " (" ++ e ++ py ")")
        | FlagError e => ValueError e
        end
      else Return (Literal unquoted)
  end.

(** The [for] loop of [_parse_valid_values]. *)
Fixpoint parse_valid_loop {L : PythonLib} (tokens : list str)
    (literals : list str) (regex_list : list (Pattern * str))
  : raises (list str * list (Pattern * str)) :=
  match tokens with
  | [] => Return (literals, regex_list)
  | tok :: r =>
      match _interpret_allowed_token tok with
      | Return (Literal val) => parse_valid_loop r (literals ++ [val]) regex_list
      | Return (Regex compiled disp) =>
          parse_valid_loop r literals (regex_list ++ [(compiled, disp)])
      | ValueError e => ValueError e
      end
  end.

Definition _parse_valid_values {L : PythonLib} (inner : str)
  : raises (list str * list (Pattern * str)) :=
  parse_valid_loop (_tokenize_list inner) [] [].

Definition _parse_type_value (token : str) : raises str :=
  let value := Py.lower (_strip_quotes (Py.rstrip_char comma (Py.strip token))) in
  if Py.mem value [py "string"; py "int"; py "float"; py "bool"; py "url"]
  then Return value
  else ValueError (py "Unsupported type '" ++ value
                   ++ py "'. Allowed: ['bool', 'float', 'int', 'string', 'url']").

(** ** Data models *)

Record ConfigOption {L : PythonLib} := mkOption {
  name : str;
  type_name : str;
  default : option str;
  required : bool;
  valid_literals : option (list str);
  valid_regex : option (list str);
  _compiled_regex : option (list (Pattern * str));
  note : option str;
  default_was_quoted : bool
}.
Arguments mkOption {L}.

Inductive Level := error | warning.

Inductive Code := missing | invalid_value | unknown | parse_error | type_mismatch.

(** The [details] dictionaries the program builds. *)
Inductive Details :=
| DetailsMissing (default_ note_ : option str)
| DetailsType (type_ value_ : str)
| DetailsAllowed (allowed_ : list str) (value_ : str).

Record ValidationIssue := mkIssue {
  level : Level;
  code : Code;
  message : str;
  setting : option str;
  details : option Details
}.

Record ValidationReport := mkReport {
  issues : list ValidationIssue;
  errors : nat;
  warnings : nat
}.

(** A Python [dict] with string keys: the items in insertion order, one
    per key. *)
Definition dict (V : Type) := list (str * V).

Definition keys {V} (d : dict V) : list str := map fst d.

Definition dict_wf {V} (d : dict V) : Prop := NoDup (keys d).

(** [k in d] *)
Definition dict_mem {V} (k : str) (d : dict V) : bool := Py.mem k (keys d).

(** [d[k]] *)
Fixpoint dict_get {V} (k : str) (d : dict V) : option V :=
  match d with
  | [] => None
  | (k', v) :: r => if Py.eqb k k' then Some v else dict_get k r
  end.

(** [d[k] = v]: an existing key keeps its place. *)
Fixpoint dict_set {V} (k : str) (v : V) (d : dict V) : dict V :=
  match d with
  | [] => [(k, v)]
  | (k', v') :: r => if Py.eqb k k' then (k', v) :: r
                     else (k', v') :: dict_set k v r
  end.

(** [x or None] for a list. *)
Definition or_None {A} (l : list A) : option (list A) :=
  if Py.truthy l then Some l else None.

(** [x or []] for an optional list. *)
Definition or_empty {A} (o : option (list A)) : list A :=
  match o with Some l => l | None => [] end.

(** ** The schema extractor *)

(** A line of the template as the module's regular expressions see it:
    whether it is a comment, and the first group of each expression that
    matches it. *)
Record lexed_line := mkLine {
  is_comment : bool;
  header : option str;
  m_name : option str;
  m_default : option str;
  m_type : option str;
  m_valid : option str;
  m_note : option str;
  m_required : option str
}.

(** The [meta] dictionary of one block. *)
Record meta {L : PythonLib} := mkMeta {
  meta_name : option str;
  meta_type_name : str;
  meta_default : option str;
  meta_default_was_quoted : bool;
  meta_valid_literals : option (list str);
  meta_valid_regex : option (list (Pattern * str));
  meta_note : option str;
  meta_required : option bool
}.
Arguments mkMeta {L}.

Definition meta_init {L : PythonLib} : meta :=
  mkMeta None (py "string") None false None None None None.

Definition parse_issue (msg : str) (setting_name : str) : ValidationIssue :=
  mkIssue error parse_error msg (Some setting_name) None.

(** The [if]/[elif] chain over the matches of one meta-line. *)
Definition apply_meta {L : PythonLib} (setting_name : str) (line : lexed_line)
    (m : meta) (iss : list ValidationIssue) : meta * list ValidationIssue :=
  match m_name line, m_default line, m_type line,
        m_valid line, m_note line, m_required line with
  | Some g, _, _, _, _, _ =>
      (mkMeta (Some (Py.strip g)) (meta_type_name m) (meta_default m)
              (meta_default_was_quoted m) (meta_valid_literals m)
              (meta_valid_regex m) (meta_note m) (meta_required m), iss)
  | None, Some g, _, _, _, _ =>
      let '(val, was_quoted) := _parse_default_value_with_quote_info g in
      (mkMeta (meta_name m) (meta_type_name m) val was_quoted
              (meta_valid_literals m) (meta_valid_regex m) (meta_note m)
              (meta_required m), iss)
  | None, None, Some g, _, _, _ =>
      match _parse_type_value g with
      | Return t =>
          (mkMeta (meta_name m) t (meta_default m)
                  (meta_default_was_quoted m) (meta_valid_literals m)
                  (meta_valid_regex m) (meta_note m) (meta_required m), iss)
      | ValueError e =>
          (m, iss ++ [parse_issue (py "Invalid type for " ++ setting_name
                                   ++ py ": " ++ e) setting_name])
      end
  | None, None, None, Some g, _, _ =>
      match _parse_valid_values g with
      | Return (lits, regexes) =>
          (mkMeta (meta_name m) (meta_type_name m) (meta_default m)
                  (meta_default_was_quoted m) (or_None lits)
                  (or_None regexes) (meta_note m) (meta_required m), iss)
      | ValueError e =>
          (m, iss ++ [parse_issue (py "Invalid valid_values for "
                                   ++ setting_name ++ py ": " ++ e)
                                  setting_name])
      end
  | None, None, None, None, Some g, _ =>
      let note_raw := Py.rstrip_char comma (Py.strip g) in
      (mkMeta (meta_name m) (meta_type_name m) (meta_default m)
              (meta_default_was_quoted m) (meta_valid_literals m)
              (meta_valid_regex m) (Some (_strip_quotes note_raw))
              (meta_required m), iss)
  | None, None, None, None, None, Some g =>
      (mkMeta (meta_name m) (meta_type_name m) (meta_default m)
              (meta_default_was_quoted m) (meta_valid_literals m)
              (meta_valid_regex m) (meta_note m)
              (Some (Py.eqb (Py.lower g) (py "true"))), iss)
  | None, None, None, None, None, None => (m, iss)
  end.

(** The option built when a block ends. *)
Definition make_option {L : PythonLib} (setting_name : str) (m : meta)
  : ConfigOption :=
  let opt_name :=
    Py.strip (match meta_name m with
              | Some n => if Py.truthy n then n else setting_name
              | None => setting_name
              end) in
  let required := match meta_required m with Some b => b | None => false end in
  let display_regex := map snd (or_empty (meta_valid_regex m)) in
  mkOption opt_name (meta_type_name m) (meta_default m) required
           (meta_valid_literals m) (or_None display_regex)
           (or_None (or_empty (meta_valid_regex m))) (meta_note m)
           (meta_default_was_quoted m).

(** The state of the scan: the schema and issues so far, and the block
    being read, if any. *)
Record scan_state {L : PythonLib} := mkScan {
  scan_schema : dict ConfigOption;
  scan_issues : list ValidationIssue;
  scan_block : option (str * meta)
}.
Arguments mkScan {L}.

Definition close_block {L : PythonLib} (st : scan_state) : scan_state :=
  match scan_block st with
  | None => st
  | Some (setting_name, m) =>
      let option := make_option setting_name m in
      let opt_name := name option in
      mkScan (dict_set opt_name option (scan_schema st))
             (if dict_mem opt_name (scan_schema st)
              then scan_issues st ++
                   [mkIssue warning parse_error
                      (py "Duplicate schema entry for '" ++ opt_name
                       ++ py "' in env.example; later entry overwrites earlier.")
                      (Some opt_name) None]
              else scan_issues st)
             None
  end.

(** A line met outside a block: a header opens one. *)
Definition scan_outside {L : PythonLib} (st : scan_state) (line : lexed_line)
  : scan_state :=
  match header line with
  | Some setting_name =>
      mkScan (scan_schema st) (scan_issues st) (Some (setting_name, meta_init))
  | None => st
  end.

(** One line of the template: inside a block, the first line that is no
    comment or is a header ends the block and is read again outside. *)
Definition scan_line {L : PythonLib} (st : scan_state) (line : lexed_line)
  : scan_state :=
  match scan_block st with
  | None => scan_outside st line
  | Some (setting_name, m) =>
      if negb (is_comment line)
         || match header line with Some _ => true | None => false end
      then scan_outside (close_block st) line
      else
        let '(m', iss') := apply_meta setting_name line m (scan_issues st) in
        mkScan (scan_schema st) iss' (Some (setting_name, m'))
  end.

(** What opening and reading the template gave. *)
Inductive file_read (A : Type) :=
| NotFound
| ReadFailed (e : str)
| Lines (ls : list A).
Arguments NotFound {A}.
Arguments ReadFailed {A} e.
Arguments Lines {A} ls.

Definition parse_env_example_schema {L : PythonLib} (path : str)
    (file : file_read lexed_line)
  : dict ConfigOption * list ValidationIssue :=
  match file with
  | NotFound =>
      ([], [mkIssue error parse_error
              (py "env.example file not found: " ++ path) None None])
  | ReadFailed e =>
      ([], [mkIssue error parse_error
              (py "Failed to read env.example file: " ++ e) None None])
  | Lines lines =>
      let st := close_block (fold_left scan_line lines (mkScan [] [] None)) in
      if Py.truthy (scan_schema st) then (scan_schema st, scan_issues st)
      else (scan_schema st,
            scan_issues st ++
            [mkIssue warning parse_error
               (py "No schema blocks found in env.example (expected '#SETTING' blocks with meta lines).")
               None None])
  end.

(** ** .env parsing *)

(** The [for] loop of the quoted case of [_parse_env_value]: [rest] is
    what is left of [s[1:]], [whole] is [s[1:]]. *)
Fixpoint quoted_loop (q : ascii) (rest : str) (escaped : bool)
    (val_chars : str) (whole : str) : str :=
  match rest with
  | [] => whole
  | ch :: r =>
      if Ascii.eqb ch q && negb escaped then val_chars
      else quoted_loop q r
             (if Ascii.eqb ch backslash && negb escaped then true else false)
             (val_chars ++ [ch]) whole
  end.

(** The unquoted case: the inline comment is cut, then the outer
    whitespace and quotes. *)
Definition unquoted_value (s : str) : str :=
  let s :=
    match Py.find hash s with
    | Some hash_pos =>
        let before_hash := firstn hash_pos s in
        if Py.endswith before_hash [space] || Py.endswith before_hash [tab]
        then Py.strip before_hash else s
    | None => s
    end in
  Py.strip_char dquote (Py.strip_char squote (Py.strip s)).

Definition _parse_env_value (raw : str) : str :=
  let s := Py.strip (Py.rstrip_char carriage_return
                       (Py.rstrip_char newline raw)) in
  match s with
  | [] => []
  | c0 :: rest =>
      if Ascii.eqb c0 squote || Ascii.eqb c0 dquote
      then quoted_loop c0 rest false [] rest
      else unquoted_value s
  end.

(** A line of the .env file: its text, and the two groups of the line
    expression when it matches. *)
Record env_line := mkEnvLine {
  raw_line : str;
  env_match : option (str * str)
}.

(** [str(n)] for a natural number. *)
Definition str_of_nat (n : nat) : str :=
  py (NilZero.string_of_uint (Nat.to_uint n)).

(** The loop of [load_dotenv] over the numbered lines. *)
Fixpoint load_loop (path : str) (ln : nat) (lines : list env_line)
    (env : dict str) (iss : list ValidationIssue)
  : dict str * list ValidationIssue :=
  match lines with
  | [] => (env, iss)
  | l :: r =>
      let s := Py.strip (raw_line l) in
      if negb (Py.truthy s) || Py.startswith s [hash] then
        load_loop path (S ln) r env iss
      else
        match env_match l with
        | None =>
            load_loop path (S ln) r env
              (iss ++ [mkIssue warning parse_error
                         (py "Unrecognized line in .env at " ++ path
                          ++ py ":" ++ str_of_nat ln ++ py ": " ++ s)
                         None None])
        | Some (key, g2) =>
            load_loop path (S ln) r
              (dict_set key (_parse_env_value (Py.strip g2)) env) iss
        end
  end.

Definition load_dotenv (path : str) (file : file_read env_line)
  : dict str * list ValidationIssue :=
  match file with
  | NotFound =>
      ([], [mkIssue error parse_error
              (py ".env file not found: " ++ path) None None])
  | ReadFailed e =>
      ([], [mkIssue error parse_error
              (py "Failed to read .env file: " ++ e) None None])
  | Lines lines => load_loop path 1 lines [] []
  end.

(** ** Type enforcement *)

(** The Python values the coercions return. *)
Inductive PyVal {L : PythonLib} :=
| VStr (s : str)
| VBool (b : bool)
| VInt (z : Z)
| VFloat (f : PyFloat).

Definition Z_of_bool (b : bool) : Z := if b then 1%Z else 0%Z.

(** Python's [==] on these values: [bool] is an [int], numbers compare
    by value, a string equals no number. *)
Definition py_eq {L : PythonLib} (a b : PyVal) : bool :=
  match a, b with
  | VStr x, VStr y => Py.eqb x y
  | VStr _, _ | _, VStr _ => false
  | VBool x, VBool y => Bool.eqb x y
  | VBool x, VInt y | VInt y, VBool x => Z.eqb (Z_of_bool x) y
  | VInt x, VInt y => Z.eqb x y
  | VFloat x, VFloat y => float_eq x y
  | VFloat x, VInt y | VInt y, VFloat x => float_eq_int x y
  | VFloat x, VBool y | VBool y, VFloat x => float_eq_int x (Z_of_bool y)
  end.

(** [x in xs] on a list of values. *)
Definition py_in {L : PythonLib} (x : PyVal) (xs : list PyVal) : bool :=
  existsb (py_eq x) xs.

Definition _BOOL_TRUE : list str :=
  [py "true"; py "1"; py "yes"; py "y"; py "on"].
Definition _BOOL_FALSE : list str :=
  [py "false"; py "0"; py "no"; py "n"; py "off"].

Definition _coerce_bool {L : PythonLib} (value : str) : raises (PyVal * str) :=
  let v := Py.lower (Py.strip value) in
  if Py.mem v _BOOL_TRUE then Return (VBool true, py "true")
  else if Py.mem v _BOOL_FALSE then Return (VBool false, py "false")
  else ValueError (py "expected a boolean (true/false/1/0/yes/no/on/off)").

Definition is_digit (c : ascii) : bool :=
  let n := nat_of_ascii c in (48 <=? n) && (n <=? 57).

Definition digit_val (c : ascii) : Z := (Z.of_nat (nat_of_ascii c) - 48)%Z.

(** [int(ds, 10)] on a run of digits. *)
Definition int_of_digits (ds : str) : Z :=
  fold_left (fun acc c => (10 * acc + digit_val c)%Z) ds 0%Z.

Definition all_digits (ds : str) : bool := Py.truthy ds && forallb is_digit ds.

(** The full match of an optional sign and digits, and the integer. *)
Definition int_of_str (s : str) : option Z :=
  match s with
  | [] => None
  | c :: r =>
      if Ascii.eqb c "+" then
        if all_digits r then Some (int_of_digits r) else None
      else if Ascii.eqb c "-" then
        if all_digits r then Some (- int_of_digits r)%Z else None
      else if all_digits s then Some (int_of_digits s) else None
  end.

(** [str(i)] for an integer. *)
Definition str_of_Z (i : Z) : str :=
  py (NilZero.string_of_int (Z.to_int i)).

Definition _coerce_int {L : PythonLib} (value : str) : raises (PyVal * str) :=
  match int_of_str (Py.strip value) with
  | None => ValueError (py "expected an integer (e.g., -10, 0, 42)")
  | Some i => Return (VInt i, str_of_Z i)
  end.

Definition _coerce_float {L : PythonLib} (value : str) : raises (PyVal * str) :=
  match float_of_str (Py.strip value) with
  | None => ValueError (py "expected a float (e.g., -1.25, 3.14, 1e-6)")
  | Some f => Return (VFloat f, str_of_float f)
  end.

Definition _coerce_url {L : PythonLib} (value : str) : raises (PyVal * str) :=
  match urlparse (Py.strip value) with
  | inr e => ValueError e
  | inl (scheme, netloc) =>
      if negb (Py.truthy scheme) || negb (Py.truthy netloc) then
        ValueError (py "expected a URL with scheme and host (e.g., https://example.com)")
      else Return (VStr (Py.strip value), Py.strip value)
  end.

Definition _coerce_by_type {L : PythonLib} (value type_name : str)
  : raises (PyVal * str) :=
  if Py.eqb type_name (py "string") then Return (VStr value, value)
  else if Py.eqb type_name (py "bool") then _coerce_bool value
  else if Py.eqb type_name (py "int") then _coerce_int value
  else if Py.eqb type_name (py "float") then _coerce_float value
  else if Py.eqb type_name (py "url") then _coerce_url value
  else Return (VStr value, value).

Definition is_typed (type_name : str) : bool :=
  Py.mem type_name [py "bool"; py "int"; py "float"].

Definition _normalize_literal_for_type {L : PythonLib} (literal type_name : str)
  : PyVal :=
  match _coerce_by_type literal type_name with
  | Return (py_val, canon) =>
      if is_typed type_name then py_val else VStr canon
  | ValueError _ => VStr literal
  end.

(** ** Validation *)

(** Python's order on strings: lexicographic on code points. *)
Fixpoint str_leb (a b : str) : bool :=
  match a, b with
  | [], _ => true
  | _ :: _, [] => false
  | x :: a', y :: b' =>
      if nat_of_ascii x <? nat_of_ascii y then true
      else if nat_of_ascii y <? nat_of_ascii x then false
      else str_leb a' b'
  end.

Fixpoint insert_sorted (x : str) (l : list str) : list str :=
  match l with
  | [] => [x]
  | y :: r => if str_leb x y then x :: l else y :: insert_sorted x r
  end.

(** [sorted(xs)] for a list of strings. *)
Definition sorted (xs : list str) : list str :=
  fold_right insert_sorted [] xs.

Definition unknown_issue (key : str) : ValidationIssue :=
  mkIssue error unknown
    (py "Unknown variable '" ++ key
     ++ py "' present in .env but not in schema.")
    (Some key) None.

(** The loop over the sorted keys of the environment. *)
Definition unknown_pass {V} (schema : dict V) (env : dict str)
  : list ValidationIssue :=
  map unknown_issue
      (filter (fun key => negb (dict_mem key schema)) (sorted (keys env))).

Definition missing_issue {L : PythonLib} (name : str) (option : ConfigOption)
  : ValidationIssue :=
  if required option then
    mkIssue error missing
      (py "Missing required variable '" ++ name ++ py "'.")
      (Some name) (Some (DetailsMissing (default option) (note option)))
  else
    mkIssue warning missing
      (py "Variable '" ++ name ++ py "' not set; default will be used.")
      (Some name) (Some (DetailsMissing (default option) (note option))).

Definition type_mismatch_issue {L : PythonLib} (name : str)
    (option : ConfigOption) (raw_value e : str) : ValidationIssue :=
  mkIssue error type_mismatch
    (py "Type mismatch for '" ++ name ++ py "': " ++ e)
    (Some name) (Some (DetailsType (type_name option) raw_value)).

Definition invalid_value_issue {L : PythonLib} (name : str)
    (option : ConfigOption) (raw_value : str) : ValidationIssue :=
  let literals := or_empty (valid_literals option) in
  let allowed_display := literals ++ or_empty (valid_regex option) in
  mkIssue error invalid_value
    (py "Invalid value for '" ++ name ++ py "': '" ++ raw_value
     ++ py "'. Allowed: " ++ repr_list allowed_display)
    (Some name) (Some (DetailsAllowed allowed_display raw_value)).

(** The literal compare of one option. *)
Definition literal_compare {L : PythonLib} (option : ConfigOption)
    (py_val : PyVal) (canon_str : str) (case_insensitive_values : bool)
    (literals : list str) : bool :=
  if is_typed (type_name option) then
    let normalized_allowed :=
      map (fun lit => _normalize_literal_for_type lit (type_name option))
          literals in
    py_in py_val normalized_allowed
  else if case_insensitive_values then
    Py.mem (Py.lower canon_str) (map Py.lower literals)
  else Py.mem canon_str literals.

(** A call of [fullmatch]: the pattern and the string it is given. *)
Definition re_call {L : PythonLib} : Type := (Pattern * str)%type.

(** The regex compare: the patterns are tried in order until one
    matches; the calls made are recorded. *)
Fixpoint regex_compare {L : PythonLib} (regex_pairs : list (Pattern * str))
    (raw_value : str) : bool * list re_call :=
  match regex_pairs with
  | [] => (false, [])
  | (compiled, _display) :: r =>
      if fullmatch compiled raw_value then (true, [(compiled, raw_value)])
      else let '(ok, calls) := regex_compare r raw_value in
           (ok, (compiled, raw_value) :: calls)
  end.

(** The allowed-values check of an option whose value has coerced:
    [allowed_ok] and the calls of [fullmatch] made. *)
Definition allowed_check {L : PythonLib} (option : ConfigOption)
    (raw_value : str) (py_val : PyVal) (canon_str : str)
    (case_insensitive_values : bool) : bool * list re_call :=
  let literals := or_empty (valid_literals option) in
  let regex_pairs := or_empty (_compiled_regex option) in
  let allowed_ok :=
    if Py.truthy literals
    then literal_compare option py_val canon_str case_insensitive_values
                         literals
    else false in
  if negb allowed_ok && Py.truthy regex_pairs
  then regex_compare regex_pairs raw_value
  else (allowed_ok, []).

(** One turn of the loop over [schema.items()]: the issues appended and
    the calls of [fullmatch] made. *)
Definition check_option {L : PythonLib} (name : str) (option : ConfigOption)
    (env : dict str) (case_insensitive_values : bool)
  : list ValidationIssue * list re_call :=
  match dict_get name env with
  | None => ([missing_issue name option], [])
  | Some raw_value =>
      match _coerce_by_type raw_value (type_name option) with
      | ValueError e => ([type_mismatch_issue name option raw_value e], [])
      | Return (py_val, canon_str) =>
          let literals := or_empty (valid_literals option) in
          let regex_pairs := or_empty (_compiled_regex option) in
          if Py.truthy literals || Py.truthy regex_pairs then
            let '(allowed_ok, calls) :=
              allowed_check option raw_value py_val canon_str
                            case_insensitive_values in
            if allowed_ok then ([], calls)
            else ([invalid_value_issue name option raw_value], calls)
          else ([], [])
      end
  end.

Fixpoint schema_pass {L : PythonLib} (schema_items : dict ConfigOption)
    (env : dict str) (case_insensitive_values : bool)
  : list ValidationIssue * list re_call :=
  match schema_items with
  | [] => ([], [])
  | (name, option) :: r =>
      let '(iss, calls) := check_option name option env case_insensitive_values in
      let '(iss', calls') := schema_pass r env case_insensitive_values in
      (iss ++ iss', calls ++ calls')
  end.

Definition is_error (i : ValidationIssue) : bool :=
  match level i with error => true | warning => false end.

Definition is_warning (i : ValidationIssue) : bool :=
  match level i with warning => true | error => false end.

(** [validate_env] together with the calls of [fullmatch] it makes. *)
Definition validate_env_run {L : PythonLib} (schema : dict ConfigOption)
    (env : dict str) (strict_unknown case_insensitive_values : bool)
  : ValidationReport * list re_call :=
  let issues0 := if strict_unknown then unknown_pass schema env else [] in
  let '(iss, calls) := schema_pass schema env case_insensitive_values in
  let issues := issues0 ++ iss in
  (mkReport issues (List.length (filter is_error issues))
            (List.length (filter is_warning issues)), calls).

Definition validate_env {L : PythonLib} (schema : dict ConfigOption)
    (env : dict str) (strict_unknown case_insensitive_values : bool)
  : ValidationReport :=
  fst (validate_env_run schema env strict_unknown case_insensitive_values).

(** ** Specification-side notions for the tokenizer *)

(** Where the scan of [_tokenize_list] is: at top level, inside a quoted
    string opened by [q], or inside a slash-delimited regex. *)
Inductive mode :=
| Top
| Quoted (q : option ascii)
| InRegex (escaped : bool).

Definition mode_of (st : tok_state) : mode :=
  if in_quote st then Quoted (quote_char st)
  else if in_regex st then InRegex (regex_escaped st)
  else Top.

Definition mode_step (m : mode) (ch : ascii) : mode :=
  match m with
  | Quoted q =>
      match q with
      | Some c => if Ascii.eqb ch c then Top else m
      | None => m
      end
  | InRegex escaped =>
      if Ascii.eqb ch backslash then InRegex (negb escaped)
      else if Ascii.eqb ch slash && negb escaped then Top
      else InRegex false
  | Top =>
      if Ascii.eqb ch squote || Ascii.eqb ch dquote then Quoted (Some ch)
      else if Ascii.eqb ch slash then InRegex false
      else Top
  end.

(** The flags the loop can reach never say quote and regex at once. *)
Definition tok_wf (st : tok_state) : Prop :=
  in_quote st = true -> in_regex st = false.

(** The pieces the scan cuts [s] into: a cut at each comma met at top
    level, and nowhere else. *)
Fixpoint segments (m : mode) (cur : str) (s : str) : list str :=
  match s with
  | [] => [cur]
  | ch :: r =>
      match m with
      | Top => if Ascii.eqb ch comma then cur :: segments Top [] r
               else segments (mode_step m ch) (cur ++ [ch]) r
      | _ => segments (mode_step m ch) (cur ++ [ch]) r
      end
  end.

(** No comma is met at top level when [s] is scanned from mode [m]. *)
Fixpoint uncut (m : mode) (s : str) : bool :=
  match s with
  | [] => true
  | ch :: r =>
      match m with
      | Top => negb (Ascii.eqb ch comma) && uncut (mode_step m ch) r
      | _ => uncut (mode_step m ch) r
      end
  end.

Definition run_mode (m : mode) (s : str) : mode := fold_left mode_step s m.

(** The modes a scan from top level can be in: a quoted string was
    opened by a quote character. *)
Definition mode_ok (m : mode) : Prop :=
  match m with
  | Quoted (Some q) => q = squote \/ q = dquote
  | Quoted None => False
  | _ => True
  end.

(** A token that is not cut and leaves the scan at top level. *)
Definition closed (s : str) : Prop :=
  uncut Top s = true /\ run_mode Top s = Top.

(** A list of tokens in which all but the last are closed. *)
Fixpoint chain (l : list str) : Prop :=
  match l with
  | [] => True
  | [t] => uncut Top t = true
  | t :: r => closed t /\ chain r
  end.

Definition clean (l : list str) : list str :=
  filter (@Py.truthy ascii) (map Py.strip l).

(** The grammar of list items: the body of a regex is made of characters
    other than slash and backslash and of backslash-escaped characters;
    an item is a run of plain characters, quoted strings and regexes. *)
Inductive regex_body : str -> Prop :=
| rb_nil : regex_body []
| rb_char c r :
    c <> slash -> c <> backslash -> regex_body r -> regex_body (c :: r)
| rb_escaped c r :
    regex_body r -> regex_body (backslash :: c :: r).

Inductive piece : str -> Prop :=
| piece_plain c :
    c <> squote -> c <> dquote -> c <> slash -> c <> comma -> piece [c]
| piece_quoted q body :
    q = squote \/ q = dquote -> ~ In q body -> piece (q :: body ++ [q])
| piece_regex body :
    regex_body body -> piece (slash :: body ++ [slash]).

Inductive item : str -> Prop :=
| item_nil : item []
| item_app p w : piece p -> item w -> item (p ++ w).

(** The last item of a list may be left open: a quoted string or a
    regex that is not ended. *)
Inductive open_item : str -> Prop :=
| open_closed w : item w -> open_item w
| open_quote w q body :
    item w -> q = squote \/ q = dquote -> ~ In q body ->
    open_item (w ++ q :: body)
| open_regex w body :
    item w -> regex_body body -> open_item (w ++ slash :: body)
| open_regex_escape w body :
    item w -> regex_body body ->
    open_item (w ++ slash :: body ++ [backslash]).

(** What it means for [t] to be [s] with the characters of [p] taken off
    both ends. *)
Definition edge_ok (p : ascii -> bool) (t : str) : Prop :=
  match t with [] => True | c :: _ => p c = false end
  /\ match rev t with [] => True | c :: _ => p c = false end.

Definition stripped_of (p : ascii -> bool) (s t : str) : Prop :=
  exists pre post,
    s = pre ++ t ++ post
    /\ forallb p pre = true /\ forallb p post = true /\ edge_ok p t.

(** A token as the tokenizer returns it: trimmed and not empty. *)
Definition token_ok (t : str) : Prop := t <> [] /\ edge_ok Py.isspace t.

(** A small instance of the library, for examples: a pattern is the
    text it matches, a float is written as an integer, a URL is anything
    with a colon in it. *)
Definition sample_urlparse (s : str) : (str * str) + str :=
  match Py.find ":"%char s with
  | Some i => inl (firstn i s, skipn (S i) s)
  | None => inl ([], [])
  end.

Definition sample_lib : PythonLib := {|
  Pattern := str;
  re_compile := fun pattern _ => Compiled pattern;
  fullmatch := fun compiled s => Py.eqb compiled s;
  PyFloat := Z;
  float_of_str := int_of_str;
  float_eq := Z.eqb;
  float_eq_int := Z.eqb;
  str_of_float := str_of_Z;
  urlparse := sample_urlparse;
  repr_list := Py.join comma
|}.

(** ** Specification-side notions for the validation *)

(** The issues of a report whose [setting] is [name]. *)
Definition has_setting (name : str) (i : ValidationIssue) : bool :=
  match setting i with
  | Some s => Py.eqb s name
  | None => false
  end.

Definition issues_for (name : str) (r : ValidationReport)
  : list ValidationIssue :=
  filter (has_setting name) (issues r).

Definition str_le (a b : str) : Prop := str_leb a b = true.

(** The issues one schema entry contributes. *)
Definition entry_issues {L : PythonLib} (env : dict str)
    (case_insensitive_values : bool) (entry : str * ConfigOption)
  : list ValidationIssue :=
  fst (check_option (fst entry) (snd entry) env case_insensitive_values).

(** The patterns the regex compare tries: those before the first that
    matches the value, and that one. *)
Fixpoint tried_patterns {L : PythonLib} (regex_pairs : list (Pattern * str))
    (raw_value : str) : list (Pattern * str) :=
  match regex_pairs with
  | [] => []
  | p :: r => if fullmatch (fst p) raw_value then [p]
              else p :: tried_patterns r raw_value
  end.

(** A literal of the allow-list as the typed compare sees it: its typed
    value when it coerces, nothing when it does not. *)
Definition coerced_literal {L : PythonLib} (type_name lit : str) : option PyVal :=
  match _coerce_by_type lit type_name with
  | Return (v, _) => Some v
  | ValueError _ => None
  end.

Definition is_str {L : PythonLib} (v : PyVal) : bool :=
  match v with VStr _ => true | _ => false end.

(** The spellings of the bare token None the extractor accepts: the four
    letters in either case. *)
Definition none_spelling (raw : str) : Prop :=
  exists a b c d,
    raw = [a; b; c; d]
    /\ (a = "n"%char \/ a = "N"%char) /\ (b = "o"%char \/ b = "O"%char)
    /\ (c = "n"%char \/ c = "N"%char) /\ (d = "e"%char \/ d = "E"%char).

(** A template line that only matches the default expression. *)
Definition default_line (g : str) : lexed_line :=
  mkLine true None None (Some g) None None None None.

Definition header_line (setting_name : str) : lexed_line :=
  mkLine true (Some setting_name) None None None None None None.

(** Sample data over [sample_lib]: a PORT option of type int with two
    literals and one pattern, an optional DEBUG option of type bool, and
    a few environments. *)
Definition port_option : @ConfigOption sample_lib :=
  @mkOption sample_lib (py "PORT") (py "int") None true
            (Some [py "80"; py "443"; py "http"]) (Some [py "/+8080/"])
            (Some [(py "+8080", py "/+8080/") : @Pattern sample_lib * str])
            None false.

Definition debug_option : @ConfigOption sample_lib :=
  @mkOption sample_lib (py "DEBUG") (py "bool") (Some (py "false")) false
            None None None (Some (py "verbose logs")) true.

Definition sample_schema : dict (@ConfigOption sample_lib) :=
  [(py "PORT", port_option); (py "DEBUG", debug_option)].

Definition env_bad_port : dict str := [(py "PORT", py "eighty")].
Definition port_schema : dict (@ConfigOption sample_lib) :=
  [(py "PORT", port_option)].
Definition env_port (value : string) : dict str := [(py "PORT", py value)].
Definition env_foo : dict str := [(py "FOO", py "bar")].
Definition env_unknown : dict str :=
  [(py "ZED", py "1"); (py "DEBUG", py "on"); (py "FOO", py "bar")].

(** ** Rendering and scaffolding helpers *)

(** [_filter_issues]: without [verbose] only the errors are kept. *)
Definition _filter_issues (issues : list ValidationIssue) (verbose : bool)
  : list ValidationIssue :=
  if verbose then issues else filter is_error issues.

(** [sep.join(xs)] for a separator of any length. *)
Fixpoint join_str (sep : str) (xs : list str) : str :=
  match xs with
  | [] => []
  | [x] => x
  | x :: r => x ++ sep ++ join_str sep r
  end.

Definition _combine_allowed_for_display {L : PythonLib} (opt : ConfigOption)
  : str :=
  let parts :=
    (if Py.truthy (or_empty (valid_literals opt))
     then or_empty (valid_literals opt) else [])
    ++ (if Py.truthy (or_empty (valid_regex opt))
        then or_empty (valid_regex opt) else []) in
  join_str (py ", ") parts.

(** The search of the character class of [_needs_quotes]: a space, a
    tab, or one of the characters #, : and =. *)
Definition is_special (c : ascii) : bool :=
  Ascii.eqb c space || Ascii.eqb c tab || Ascii.eqb c hash
  || Ascii.eqb c ":" || Ascii.eqb c "=".

Definition _needs_quotes (value : str) : bool :=
  if Py.eqb value [] then true
  else if existsb is_special value then true
  else false.

(** [value.replace(c, rep)] for a one-character [c]. *)
Definition replace_char (c : ascii) (rep : str) (value : str) : str :=
  flat_map (fun a => if Ascii.eqb a c then rep else [a]) value.

(** The double-quoted form both quoting functions build. *)
Definition double_quoted (value : str) : str :=
  let val := replace_char dquote [backslash; dquote] value in
  [dquote] ++ val ++ [dquote].

Definition _quote (value : str) : str :=
  if _needs_quotes value then double_quoted value else value.

Definition _quote_for_scaffold (value type_name : str)
    (default_was_quoted preserve_default_quotes quote_strings : bool) : str :=
  if preserve_default_quotes && default_was_quoted then double_quoted value
  else if quote_strings && Py.eqb type_name (py "string")
  then double_quoted value
  else _quote value.

(** ** Specification-side notions for the added properties *)

(** A value that passes the type check and the allowed-values check of
    its option. *)
Definition value_ok {L : PythonLib} (o : ConfigOption) (raw_value : str)
    (civ : bool) : bool :=
  match _coerce_by_type raw_value (type_name o) with
  | ValueError _ => false
  | Return (py_val, canon_str) =>
      negb (Py.truthy (or_empty (valid_literals o))
            || Py.truthy (or_empty (_compiled_regex o)))
      || fst (allowed_check o raw_value py_val canon_str civ)
  end.


(** The five type names of the schema. *)
Definition type_names : list str :=
  [py "string"; py "int"; py "float"; py "bool"; py "url"].

(** The literals and the patterns among interpreted tokens, in order,
    and the first error met. *)
Fixpoint literals_of {L : PythonLib} (tokens : list str) : list str :=
  match tokens with
  | [] => []
  | tok :: r =>
      match _interpret_allowed_token tok with
      | Return (Literal val) => val :: literals_of r
      | _ => literals_of r
      end
  end.

Fixpoint regexes_of {L : PythonLib} (tokens : list str)
  : list (Pattern * str) :=
  match tokens with
  | [] => []
  | tok :: r =>
      match _interpret_allowed_token tok with
      | Return (Regex compiled disp) => (compiled, disp) :: regexes_of r
      | _ => regexes_of r
      end
  end.

Fixpoint first_error {L : PythonLib} (tokens : list str) : option str :=
  match tokens with
  | [] => None
  | tok :: r =>
      match _interpret_allowed_token tok with
      | ValueError e => Some e
      | Return _ => first_error r
      end
  end.

(** A template line inside a block: a comment that is no header. *)
Definition is_meta_line (line : lexed_line) : bool :=
  is_comment line && match header line with Some _ => false | None => true end.

(** The [meta] of a block after its meta-lines, and the issues they add. *)
Definition block_meta {L : PythonLib} (setting_name : str)
    (lines : list lexed_line) (m : meta) (iss : list ValidationIssue)
  : meta * list ValidationIssue :=
  fold_left (fun acc line => apply_meta setting_name line (fst acc) (snd acc))
            lines (m, iss).

(** A line of the .env file that assigns: not blank, not a comment, and
    matched by the line expression. *)
Definition assigns (l : env_line) (key g2 : str) : Prop :=
  Py.truthy (Py.strip (raw_line l)) = true
  /\ Py.startswith (Py.strip (raw_line l)) [hash] = false
  /\ env_match l = Some (key, g2).

(** What every option of an extracted schema satisfies: it is stored
    under its name, its type is one of the five, its lists are absent
    rather than empty, and the displayed patterns are those compiled. *)
Definition option_ok {L : PythonLib} (entry : str * ConfigOption) : Prop :=
  name (snd entry) = fst entry
  /\ In (type_name (snd entry)) type_names
  /\ valid_literals (snd entry) <> Some []
  /\ _compiled_regex (snd entry) <> Some []
  /\ valid_regex (snd entry)
     = option_map (map snd) (_compiled_regex (snd entry)).

Definition meta_ok {L : PythonLib} (m : meta) : Prop :=
  In (meta_type_name m) type_names
  /\ meta_valid_literals m <> Some []
  /\ meta_valid_regex m <> Some [].

Definition scan_ok {L : PythonLib} (st : scan_state) : Prop :=
  dict_wf (scan_schema st)
  /\ Forall option_ok (scan_schema st)
  /\ Forall (fun i => code i = parse_error) (scan_issues st)
  /\ match scan_block st with
     | Some (_, m) => meta_ok m
     | None => True
     end.

Definition has_header (lines : list lexed_line) : bool :=
  existsb (fun l => match header l with Some _ => true | None => false end)
          lines.

(** The scan holds something: a block being read or a schema entry. *)
Definition scan_busy {L : PythonLib} (st : scan_state) : bool :=
  match scan_block st with Some _ => true | None => false end
  || Py.truthy (scan_schema st).

(** The warning of an extraction that found no block. *)
Definition no_blocks_warning : ValidationIssue :=
  mkIssue warning parse_error
    (py "No schema blocks found in env.example (expected '#SETTING' blocks with meta lines).")
    None None.

(** A template line that only matches the valid_values expression. *)
Definition valid_line (g : str) : lexed_line :=
  mkLine true None None None None (Some g) None None.

(** ** Properties of the string methods *)

Lemma eqb_spec (a b : str) : Py.eqb a b = true <-> a = b.
Proof.
  unfold Py.eqb. destruct (list_eq_dec ascii_dec a b); split; congruence.
Qed.

Lemma eqb_refl (a : str) : Py.eqb a a = true.
Proof. now apply eqb_spec. Qed.

Lemma eqb_false (a b : str) : Py.eqb a b = false <-> a <> b.
Proof.
  unfold Py.eqb. destruct (list_eq_dec ascii_dec a b); split; congruence.
Qed.

Lemma mem_In (x : str) (xs : list str) : Py.mem x xs = true <-> In x xs.
Proof.
  unfold Py.mem. rewrite existsb_exists. split.
  - intros (y & Hy & E). apply eqb_spec in E. now subst.
  - intros H. exists x. split; [assumption | apply eqb_refl].
Qed.

Lemma lstrip_by_app (p : ascii -> bool) (pre s : str) :
  forallb p pre = true -> Py.lstrip_by p (pre ++ s) = Py.lstrip_by p s.
Proof.
  induction pre as [|c pre IH]; simpl; intros H; [reflexivity|].
  apply andb_prop in H as [Hc Hp]. rewrite Hc. now apply IH.
Qed.

Lemma lstrip_by_all (p : ascii -> bool) (s : str) :
  forallb p s = true -> Py.lstrip_by p s = [].
Proof.
  intros H. rewrite <- (app_nil_r s). now rewrite lstrip_by_app.
Qed.

Lemma lstrip_by_head (p : ascii -> bool) (c : ascii) (s : str) :
  p c = false -> Py.lstrip_by p (c :: s) = c :: s.
Proof. intros H. simpl. now rewrite H. Qed.

Lemma forallb_rev {A} (p : A -> bool) (l : list A) :
  forallb p (rev l) = forallb p l.
Proof.
  induction l as [|a l IH]; simpl; [reflexivity|].
  rewrite forallb_app, IH. simpl. rewrite andb_true_r. apply andb_comm.
Qed.

(** The result of [strip_by] is determined by [stripped_of]. *)
Lemma stripped_of_unique (p : ascii -> bool) (s t : str) :
  stripped_of p s t -> Py.strip_by p s = t.
Proof.
  intros (pre & post & -> & Hpre & Hpost & Hhd & Hlast).
  unfold Py.strip_by, Py.rstrip_by. rewrite lstrip_by_app by assumption.
  destruct t as [|c t].
  - simpl. rewrite (lstrip_by_all p post Hpost). reflexivity.
  - change ((c :: t) ++ post) with (c :: (t ++ post)).
    rewrite lstrip_by_head by assumption.
    change (c :: t ++ post) with ((c :: t) ++ post).
    rewrite rev_app_distr, lstrip_by_app by now rewrite forallb_rev.
    destruct (rev (c :: t)) as [|d u] eqn:E.
    + apply (f_equal (@rev ascii)) in E. rewrite rev_involutive in E.
      discriminate E.
    + rewrite lstrip_by_head by assumption. rewrite <- E.
      apply rev_involutive.
Qed.

Lemma lstrip_by_split (p : ascii -> bool) (s : str) :
  exists pre, s = pre ++ Py.lstrip_by p s /\ forallb p pre = true
              /\ match Py.lstrip_by p s with [] => True | c :: _ => p c = false end.
Proof.
  induction s as [|c s (pre & E & Hp & Hh)]; simpl.
  - exists []. auto.
  - destruct (p c) eqn:Hc.
    + exists (c :: pre). simpl. rewrite Hc, Hp. repeat split; auto.
      now f_equal.
    + exists []. simpl. rewrite Hc. auto.
Qed.

Lemma strip_by_stripped (p : ascii -> bool) (s : str) :
  stripped_of p s (Py.strip_by p s).
Proof.
  destruct (lstrip_by_split p s) as (pre & E & Hpre & Hh).
  unfold Py.strip_by, Py.rstrip_by.
  set (u := Py.lstrip_by p s) in *.
  destruct (lstrip_by_split p (rev u)) as (post & E' & Hpost & Hl).
  set (v := Py.lstrip_by p (rev u)) in *.
  exists pre, (rev post). split; [|split; [assumption|split]].
  - rewrite E at 1. f_equal. rewrite <- rev_app_distr, <- E'.
    symmetry. apply rev_involutive.
  - now rewrite forallb_rev.
  - unfold edge_ok. rewrite rev_involutive. split; [|assumption].
    assert (Eu : u = rev v ++ rev post).
    { rewrite <- rev_app_distr, <- E'. symmetry. apply rev_involutive. }
    destruct (rev v) as [|c w] eqn:Ev; [exact I|].
    rewrite Eu in Hh. exact Hh.
Qed.

Lemma strip_by_idem (p : ascii -> bool) (s : str) :
  Py.strip_by p (Py.strip_by p s) = Py.strip_by p s.
Proof.
  apply stripped_of_unique.
  destruct (strip_by_stripped p s) as (pre & post & _ & _ & _ & H).
  exists [], []. simpl. rewrite app_nil_r. auto.
Qed.

Lemma strip_by_pad (p : ascii -> bool) (pre s post : str) :
  forallb p pre = true -> forallb p post = true ->
  Py.strip_by p (pre ++ s ++ post) = Py.strip_by p s.
Proof.
  intros Hpre Hpost. apply stripped_of_unique.
  destruct (strip_by_stripped p s) as (a & b & E & Ha & Hb & H).
  exists (pre ++ a), (b ++ post). split; [|split; [|split]].
  - rewrite E at 1. now rewrite !app_assoc.
  - rewrite forallb_app. now rewrite Hpre, Ha.
  - rewrite forallb_app. now rewrite Hpost, Hb.
  - assumption.
Qed.

Lemma strip_by_fixed (p : ascii -> bool) (t : str) :
  edge_ok p t -> Py.strip_by p t = t.
Proof.
  intros H. apply stripped_of_unique. exists [], []. simpl.
  rewrite app_nil_r. auto.
Qed.

(** ** The list tokenizer as a scan over modes *)

Lemma clean_cons (t : str) (l : list str) :
  clean (t :: l) = (if Py.truthy (Py.strip t) then [Py.strip t] else []) ++ clean l.
Proof. unfold clean. simpl. now destruct (Py.truthy (Py.strip t)). Qed.

Lemma clean_app (l1 l2 : list str) : clean (l1 ++ l2) = clean l1 ++ clean l2.
Proof. unfold clean. now rewrite map_app, filter_app. Qed.

Lemma tok_step_wf (st : tok_state) (ch : ascii) :
  tok_wf st -> tok_wf (tok_step st ch).
Proof.
  unfold tok_wf, tok_step. intros H.
  destruct (in_quote st) eqn:Q.
  - simpl. intros _. now apply H.
  - destruct (in_regex st) eqn:R.
    + destruct (Ascii.eqb ch backslash); simpl; discriminate.
    + destruct (Ascii.eqb ch squote || Ascii.eqb ch dquote); simpl; [reflexivity|].
      destruct (Ascii.eqb ch slash); simpl; [discriminate|].
      destruct (Ascii.eqb ch comma); simpl; discriminate.
Qed.

(** One turn of the loop, read on modes: a comma at top level ends the
    current token, any other character joins it. *)
Lemma tok_step_mode (st : tok_state) (ch : ascii) :
  tok_wf st ->
  mode_of (tok_step st ch) = mode_step (mode_of st) ch
  /\ (if match mode_of st with Top => Ascii.eqb ch comma | _ => false end
      then items (tok_step st ch) = items st ++ clean [current st]
           /\ current (tok_step st ch) = []
      else items (tok_step st ch) = items st
           /\ current (tok_step st ch) = current st ++ [ch]).
Proof.
  unfold tok_wf, mode_of, tok_step, is_quote_char. intros H.
  destruct (in_quote st) eqn:Q.
  - rewrite (H eq_refl). simpl.
    destruct (quote_char st) as [q|]; simpl.
    + destruct (Ascii.eqb ch q); simpl; auto.
    + auto.
  - destruct (in_regex st) eqn:R.
    + simpl. destruct (Ascii.eqb ch backslash); simpl; [auto|].
      destruct (Ascii.eqb ch slash && negb (regex_escaped st)); simpl; auto.
    + simpl. destruct (Ascii.eqb ch squote || Ascii.eqb ch dquote) eqn:E.
      * simpl. split; [reflexivity|].
        replace (Ascii.eqb ch comma) with false; [auto|].
        symmetry. apply Ascii.eqb_neq. intros ->. discriminate E.
      * destruct (Ascii.eqb ch slash) eqn:E2.
        -- simpl. split; [reflexivity|].
           replace (Ascii.eqb ch comma) with false; [auto|].
           symmetry. apply Ascii.eqb_neq. intros ->. discriminate E2.
        -- destruct (Ascii.eqb ch comma) eqn:E3; simpl.
           ++ split; [reflexivity|]. split; [|reflexivity].
              rewrite clean_cons. unfold clean. simpl. rewrite app_nil_r.
              destruct (Py.truthy (Py.strip (current st)));
                [reflexivity | now rewrite app_nil_r].
           ++ auto.
Qed.

Lemma tok_fold_segments (s : str) : forall st,
  tok_wf st ->
  tok_finish (fold_left tok_step s st)
  = items st ++ clean (segments (mode_of st) (current st) s).
Proof.
  induction s as [|ch r IH]; intros st W.
  - simpl. unfold tok_finish. rewrite clean_cons. unfold clean. simpl.
    rewrite app_nil_r.
    destruct (Py.truthy (Py.strip (current st))); [reflexivity|].
    now rewrite app_nil_r.
  - simpl fold_left. rewrite (IH _ (tok_step_wf st ch W)).
    destruct (tok_step_mode st ch W) as [M C]. rewrite M. simpl segments.
    destruct (mode_of st) as [|q|e].
    + destruct (Ascii.eqb ch comma) eqn:E.
      * destruct C as [-> ->]. rewrite <- app_assoc. f_equal.
        rewrite (clean_cons (current st)). rewrite clean_cons.
        unfold clean at 2. simpl. rewrite app_nil_r. f_equal. f_equal.
        apply Ascii.eqb_eq in E. subst ch. reflexivity.
      * destruct C as [-> ->]. reflexivity.
    + destruct C as [-> ->]. reflexivity.
    + destruct C as [-> ->]. reflexivity.
Qed.

Lemma tokenize_segments (inner : str) :
  _tokenize_list inner = clean (segments Top [] (Py.strip inner)).
Proof.
  unfold _tokenize_list. rewrite tok_fold_segments by discriminate.
  reflexivity.
Qed.

(** *** Segments of a scan *)

Lemma segments_cur (s : str) : forall m cur,
  exists h t, segments m [] s = h :: t /\ segments m cur s = (cur ++ h) :: t.
Proof.
  induction s as [|ch r IH]; intros m cur.
  - exists [], []. simpl. now rewrite app_nil_r.
  - assert (G : forall m', exists h t,
               segments m' [ch] r = h :: t
               /\ segments m' (cur ++ [ch]) r = (cur ++ h) :: t).
    { intros m'. destruct (IH m' [ch]) as (h & t & E1 & E2).
      destruct (IH m' (cur ++ [ch])) as (h' & t' & E1' & E2').
      rewrite E1 in E1'. injection E1' as <- <-.
      exists ([ch] ++ h), t. rewrite E2, E2'. now rewrite <- app_assoc. }
    simpl. destruct m as [|q|e]; [|apply G|apply G].
    destruct (Ascii.eqb ch comma); [|apply G].
    exists [], (segments Top [] r). now rewrite app_nil_r.
Qed.

Lemma run_mode_app (m : mode) (a b : str) :
  run_mode m (a ++ b) = run_mode (run_mode m a) b.
Proof. apply fold_left_app. Qed.

Lemma uncut_app (a : str) : forall m b,
  uncut m (a ++ b) = uncut m a && uncut (run_mode m a) b.
Proof.
  induction a as [|ch a IH]; intros m b; [reflexivity|].
  simpl. destruct m as [|q|e]; rewrite IH; [|reflexivity|reflexivity].
  now rewrite andb_assoc.
Qed.

Lemma segments_uncut (a : str) : forall m cur b,
  uncut m a = true ->
  segments m cur (a ++ b) = segments (run_mode m a) (cur ++ a) b.
Proof.
  induction a as [|ch a IH]; intros m cur b H.
  - simpl. now rewrite app_nil_r.
  - simpl in *. replace (cur ++ ch :: a) with ((cur ++ [ch]) ++ a)
      by now rewrite <- app_assoc.
    destruct m as [|q|e].
    + apply andb_prop in H as [Hc Hu].
      destruct (Ascii.eqb ch comma); [discriminate|]. now apply IH.
    + now apply IH.
    + now apply IH.
Qed.

Lemma segments_closed (a b cur : str) :
  closed a ->
  segments Top cur (a ++ comma :: b) = (cur ++ a) :: segments Top [] b.
Proof.
  intros [Hu Hr]. rewrite segments_uncut by assumption. rewrite Hr.
  reflexivity.
Qed.

Lemma segments_whole (a cur : str) (m : mode) :
  uncut m a = true -> segments m cur a = [cur ++ a].
Proof.
  intros H. rewrite <- (app_nil_r a) at 1.
  now rewrite segments_uncut.
Qed.

Lemma closed_uncut (t : str) : closed t -> uncut Top t = true.
Proof. now intros [H _]. Qed.

Lemma chain_cons (t : str) (r : list str) :
  closed t -> chain r -> chain (t :: r).
Proof.
  intros Ht Hr. destruct r as [|u r]; simpl.
  - now apply closed_uncut.
  - now split.
Qed.

Lemma chain_tail (t : str) (r : list str) : chain (t :: r) -> chain r.
Proof. destruct r as [|u r]; simpl; [trivial | now intros [_ H]]. Qed.

Lemma chain_head (t : str) (r : list str) :
  chain (t :: r) -> uncut Top t = true.
Proof.
  destruct r as [|u r]; simpl; [trivial|].
  intros [H _]. now apply closed_uncut.
Qed.

(** Joining a chain with commas and scanning it gives the chain back. *)
Lemma segments_join (ts : list str) :
  chain ts -> ts <> [] -> segments Top [] (Py.join comma ts) = ts.
Proof.
  induction ts as [|t r IH]; intros C N; [contradiction|].
  destruct r as [|u r].
  - simpl in *. now rewrite segments_whole.
  - change (Py.join comma (t :: u :: r))
      with (t ++ comma :: Py.join comma (u :: r)).
    destruct C as [Ct Cr]. rewrite segments_closed by assumption.
    simpl app. f_equal. apply IH; [assumption|discriminate].
Qed.

(** The segments of any scan form a chain. *)
Lemma segments_chain (s : str) : forall m cur,
  uncut Top cur = true -> run_mode Top cur = m ->
  chain (segments m cur s).
Proof.
  induction s as [|ch r IH]; intros m cur Hu Hr.
  - exact Hu.
  - assert (G : match m with Top => Ascii.eqb ch comma = false | _ => True end ->
                chain (segments (mode_step m ch) (cur ++ [ch]) r)).
    { intros Hc. apply IH.
      - rewrite uncut_app, Hu, Hr. simpl.
        destruct m; [now rewrite Hc | reflexivity | reflexivity].
      - rewrite run_mode_app, Hr. reflexivity. }
    simpl. destruct m as [|q|e]; [|now apply G|now apply G].
    destruct (Ascii.eqb ch comma) eqn:E; [|now apply G].
    apply chain_cons; [now split|]. now apply IH.
Qed.

(** *** Whitespace and the scan *)

Lemma isspace_plain (c : ascii) :
  Py.isspace c = true ->
  Ascii.eqb c squote = false /\ Ascii.eqb c dquote = false
  /\ Ascii.eqb c slash = false /\ Ascii.eqb c comma = false
  /\ Ascii.eqb c backslash = false.
Proof.
  destruct c as [[] [] [] [] [] [] [] []]; vm_compute; intros H;
    try discriminate H; repeat split.
Qed.

Lemma space_step_top (c : ascii) :
  Py.isspace c = true -> mode_step Top c = Top.
Proof.
  intros H. destruct (isspace_plain c H) as (A & B & C & _).
  simpl. now rewrite A, B, C.
Qed.

Lemma spaces_run_top (ws : str) :
  forallb Py.isspace ws = true -> run_mode Top ws = Top.
Proof.
  induction ws as [|c ws IH]; intros H; [reflexivity|].
  simpl in H. apply andb_prop in H as [Hc Hw].
  change (run_mode Top (c :: ws)) with (run_mode (mode_step Top c) ws).
  rewrite (space_step_top c Hc). now apply IH.
Qed.

Lemma no_comma_uncut (w : str) : forall m,
  forallb (fun c => negb (Ascii.eqb c comma)) w = true -> uncut m w = true.
Proof.
  induction w as [|c w IH]; intros m H; [reflexivity|].
  simpl in *. apply andb_prop in H as [Hc Hw].
  destruct m; rewrite IH by assumption; [now rewrite Hc | reflexivity | reflexivity].
Qed.

Lemma spaces_no_comma (ws : str) :
  forallb Py.isspace ws = true ->
  forallb (fun c => negb (Ascii.eqb c comma)) ws = true.
Proof.
  induction ws as [|c ws IH]; simpl; intros H; [reflexivity|].
  apply andb_prop in H as [Hc Hw].
  destruct (isspace_plain c Hc) as (_ & _ & _ & D & _).
  rewrite D. simpl. now apply IH.
Qed.

Lemma spaces_uncut (ws : str) (m : mode) :
  forallb Py.isspace ws = true -> uncut m ws = true.
Proof. intros H. apply no_comma_uncut. now apply spaces_no_comma. Qed.

Lemma mode_step_ok (m : mode) (c : ascii) : mode_ok m -> mode_ok (mode_step m c).
Proof.
  destruct m as [|[q|]|e]; simpl; intros H.
  - destruct (Ascii.eqb c squote) eqn:A; simpl.
    + apply Ascii.eqb_eq in A. now left.
    + destruct (Ascii.eqb c dquote) eqn:B; simpl.
      * apply Ascii.eqb_eq in B. now right.
      * now destruct (Ascii.eqb c slash).
  - now destruct (Ascii.eqb c q).
  - contradiction.
  - destruct (Ascii.eqb c backslash); [exact I|].
    now destruct (Ascii.eqb c slash && negb e).
Qed.

Lemma run_mode_ok (s : str) : forall m, mode_ok m -> mode_ok (run_mode m s).
Proof.
  induction s as [|c s IH]; intros m H; [exact H|].
  apply (IH (mode_step m c)). now apply mode_step_ok.
Qed.

Lemma space_step_back (m : mode) (c : ascii) :
  Py.isspace c = true -> mode_ok m -> mode_step m c = Top -> m = Top.
Proof.
  intros Hc Hm. destruct (isspace_plain c Hc) as (A & B & C & _ & E).
  destruct m as [|[q|]|e]; simpl in *; [reflexivity| | |].
  - destruct Hm as [-> | ->]; [rewrite A | rewrite B]; discriminate.
  - contradiction.
  - rewrite E, C. simpl. discriminate.
Qed.

Lemma spaces_run_back (ws : str) : forall m,
  forallb Py.isspace ws = true -> mode_ok m -> run_mode m ws = Top -> m = Top.
Proof.
  induction ws as [|c ws IH]; intros m H Hm R; [exact R|].
  simpl in H. apply andb_prop in H as [Hc Hw].
  change (run_mode m (c :: ws)) with (run_mode (mode_step m c) ws) in R.
  apply (space_step_back m c Hc Hm).
  apply IH; [assumption | now apply mode_step_ok | assumption].
Qed.

Lemma strip_split (s : str) :
  exists pre post, s = pre ++ Py.strip s ++ post
                   /\ forallb Py.isspace pre = true
                   /\ forallb Py.isspace post = true.
Proof.
  destruct (strip_by_stripped Py.isspace s) as (pre & post & E & A & B & _).
  now exists pre, post.
Qed.

Lemma uncut_strip (t : str) : uncut Top t = true -> uncut Top (Py.strip t) = true.
Proof.
  destruct (strip_split t) as (pre & post & E & A & B). intros H.
  rewrite E in H. rewrite uncut_app, (spaces_run_top pre A) in H.
  apply andb_prop in H as [_ H]. rewrite uncut_app in H.
  now apply andb_prop in H as [H _].
Qed.

Lemma closed_strip (t : str) : closed t -> closed (Py.strip t).
Proof.
  intros [Hu Hr]. split; [now apply uncut_strip|].
  destruct (strip_split t) as (pre & post & E & A & B).
  rewrite E in Hr. rewrite run_mode_app, (spaces_run_top pre A) in Hr.
  rewrite run_mode_app in Hr.
  apply (spaces_run_back post _ B); [|assumption].
  now apply run_mode_ok.
Qed.

Lemma clean_chain (l : list str) : chain l -> chain (clean l).
Proof.
  induction l as [|t r IH]; intros C; [exact I|].
  rewrite clean_cons. specialize (IH (chain_tail _ _ C)).
  destruct (Py.truthy (Py.strip t)); [|exact IH].
  destruct r as [|u r].
  - simpl in *. now apply uncut_strip.
  - destruct C as [Ct _]. apply chain_cons; [now apply closed_strip | exact IH].
Qed.

(** *** Tokens are trimmed and not empty *)

Lemma clean_tokens_ok (l : list str) : Forall token_ok (clean l).
Proof.
  unfold clean. apply Forall_forall. intros t H.
  apply filter_In in H as [H T]. apply in_map_iff in H as (x & <- & _).
  split.
  - intros E. rewrite E in T. discriminate T.
  - now destruct (strip_by_stripped Py.isspace x) as (? & ? & _ & _ & _ & H).
Qed.

Lemma clean_fixed (ts : list str) : Forall token_ok ts -> clean ts = ts.
Proof.
  induction 1 as [|t r [N E] _ IH]; [reflexivity|].
  rewrite clean_cons, IH. unfold Py.strip. rewrite (strip_by_fixed _ _ E).
  destruct t; [contradiction | reflexivity].
Qed.

Lemma rev_head_app (a b : str) :
  b <> [] ->
  match rev (a ++ b) with [] => True | c :: _ => Py.isspace c = false end
  = match rev b with [] => True | c :: _ => Py.isspace c = false end.
Proof.
  intros N. rewrite rev_app_distr.
  destruct (rev b) as [|d u] eqn:E; [|reflexivity].
  apply (f_equal (@rev ascii)) in E. rewrite rev_involutive in E.
  contradiction.
Qed.

Lemma join_token_ok (ts : list str) :
  Forall token_ok ts -> ts <> [] -> token_ok (Py.join comma ts).
Proof.
  induction 1 as [|t r [N [Eh El]] Hr IH]; intros NN; [now elim NN|].
  destruct r as [|u r]; [now repeat split|].
  change (Py.join comma (t :: u :: r))
    with (t ++ comma :: Py.join comma (u :: r)).
  destruct IH as [N' [Eh' El']]; [discriminate|].
  split; [|split].
  - destruct t; [contradiction | discriminate].
  - destruct t; [contradiction | exact Eh].
  - change (comma :: Py.join comma (u :: r))
      with ([comma] ++ Py.join comma (u :: r)).
    rewrite app_assoc, rev_head_app by assumption. exact El'.
Qed.

Lemma join_strip (ts : list str) :
  Forall token_ok ts -> Py.strip (Py.join comma ts) = Py.join comma ts.
Proof.
  intros H. destruct ts as [|t r]; [reflexivity|].
  apply strip_by_fixed. now apply join_token_ok.
Qed.

(** *** The outer [strip] does not change the tokens *)

Lemma segments_pad_right (post : str) :
  forallb Py.isspace post = true ->
  forall x m cur, exists l z,
    segments m cur x = l ++ [z] /\ segments m cur (x ++ post) = l ++ [z ++ post].
Proof.
  intros Hp. induction x as [|ch r IH]; intros m cur.
  - exists [], cur. split; [reflexivity|].
    simpl app. now rewrite segments_whole by now apply spaces_uncut.
  - assert (G : forall m' cur', exists l z,
               segments m' cur' r = l ++ [z]
               /\ segments m' cur' (r ++ post) = l ++ [z ++ post])
      by (intros; apply IH).
    simpl. destruct m as [|q|e]; [|apply G|apply G].
    destruct (Ascii.eqb ch comma); [|apply G].
    destruct (G Top []) as (l & z & E1 & E2).
    exists (cur :: l), z. now rewrite E1, E2.
Qed.

Lemma strip_pad_l (pre x : str) :
  forallb Py.isspace pre = true -> Py.strip (pre ++ x) = Py.strip x.
Proof.
  intros H. unfold Py.strip. rewrite <- (app_nil_r x) at 1.
  now apply strip_by_pad.
Qed.

Lemma strip_pad_r (x post : str) :
  forallb Py.isspace post = true -> Py.strip (x ++ post) = Py.strip x.
Proof.
  intros H. unfold Py.strip. change (x ++ post) with ([] ++ x ++ post).
  now apply strip_by_pad.
Qed.

Lemma clean_segments_strip (s : str) :
  clean (segments Top [] (Py.strip s)) = clean (segments Top [] s).
Proof.
  destruct (strip_split s) as (pre & post & E & A & B).
  rewrite E at 2.
  rewrite segments_uncut by now apply spaces_uncut.
  rewrite (spaces_run_top pre A). simpl app.
  destruct (segments_pad_right post B (Py.strip s) Top pre) as (l & z & E1 & E2).
  rewrite E2.
  destruct (segments_cur (Py.strip s) Top pre) as (h & t & F1 & F2).
  rewrite F1. rewrite F2 in E1.
  transitivity (clean (l ++ [z])).
  - rewrite <- E1, !clean_cons. now rewrite strip_pad_l.
  - rewrite !clean_app, !clean_cons. now rewrite strip_pad_r.
Qed.

Lemma tokenize_clean (inner : str) :
  _tokenize_list inner = clean (segments Top [] inner).
Proof. rewrite tokenize_segments. apply clean_segments_strip. Qed.

Lemma tokenize_chain (ts : list str) :
  chain ts -> _tokenize_list (Py.join comma ts) = clean ts.
Proof.
  intros C. rewrite tokenize_clean. destruct ts as [|t r]; [reflexivity|].
  now rewrite segments_join.
Qed.

(** Tokenizing the comma-joined tokens of any input gives the tokens
    back. *)
Lemma tokenize_join_tokenize (s : str) :
  _tokenize_list (Py.join comma (_tokenize_list s)) = _tokenize_list s.
Proof.
  rewrite tokenize_chain.
  - rewrite tokenize_clean. apply clean_fixed, clean_tokens_ok.
  - rewrite tokenize_clean. apply clean_chain.
    now apply segments_chain.
Qed.

(** *** Items of the grammar are closed *)

Lemma closed_app (a b : str) : closed a -> closed b -> closed (a ++ b).
Proof.
  intros [Ua Ra] [Ub Rb]. split.
  - now rewrite uncut_app, Ua, Ra, Ub.
  - now rewrite run_mode_app, Ra.
Qed.

Lemma quoted_body_scan (q : ascii) (body : str) :
  ~ In q body ->
  uncut (Quoted (Some q)) body = true
  /\ run_mode (Quoted (Some q)) body = Quoted (Some q).
Proof.
  induction body as [|c body IH]; intros H; [now split|].
  assert (E : Ascii.eqb c q = false).
  { apply Ascii.eqb_neq. intros ->. apply H. now left. }
  change (uncut (Quoted (Some q)) (c :: body))
    with (uncut (mode_step (Quoted (Some q)) c) body).
  change (run_mode (Quoted (Some q)) (c :: body))
    with (run_mode (mode_step (Quoted (Some q)) c) body).
  simpl mode_step. rewrite E. apply IH. intros G. apply H. now right.
Qed.

Lemma regex_body_scan (body : str) :
  regex_body body ->
  uncut (InRegex false) body = true
  /\ run_mode (InRegex false) body = InRegex false.
Proof.
  induction 1 as [|c r Hs Hb _ IH|c r _ IH]; [now split| |].
  - change (uncut (InRegex false) (c :: r))
      with (uncut (mode_step (InRegex false) c) r).
    change (run_mode (InRegex false) (c :: r))
      with (run_mode (mode_step (InRegex false) c) r).
    simpl mode_step.
    apply Ascii.eqb_neq in Hs, Hb. rewrite Hs, Hb. exact IH.
  - change (uncut (InRegex false) (backslash :: c :: r))
      with (uncut (mode_step (mode_step (InRegex false) backslash) c) r).
    change (run_mode (InRegex false) (backslash :: c :: r))
      with (run_mode (mode_step (mode_step (InRegex false) backslash) c) r).
    replace (mode_step (mode_step (InRegex false) backslash) c)
      with (InRegex false); [exact IH|].
    simpl. destruct (Ascii.eqb c backslash); [reflexivity|].
    now rewrite andb_false_r.
Qed.

Lemma piece_closed (p : str) : piece p -> closed p.
Proof.
  intros [c Hs Hd Hl Hc|q body Hq Hb|body Hb].
  - apply Ascii.eqb_neq in Hs, Hd, Hl, Hc. unfold closed, run_mode. simpl.
    now rewrite Hs, Hd, Hl, Hc.
  - destruct (quoted_body_scan q body Hb) as [U R].
    assert (O : mode_step Top q = Quoted (Some q)) by now destruct Hq; subst.
    assert (C : Ascii.eqb q comma = false) by now destruct Hq; subst.
    split.
    + change (uncut Top (q :: body ++ [q]))
        with (negb (Ascii.eqb q comma) && uncut (mode_step Top q) (body ++ [q])).
      rewrite C, O, uncut_app, U, R. reflexivity.
    + change (run_mode Top (q :: body ++ [q]))
        with (run_mode (mode_step Top q) (body ++ [q])).
      rewrite O, run_mode_app, R. unfold run_mode. simpl.
      now rewrite Ascii.eqb_refl.
  - destruct (regex_body_scan body Hb) as [U R]. split.
    + change (uncut Top (slash :: body ++ [slash]))
        with (uncut (InRegex false) (body ++ [slash])).
      rewrite uncut_app, U, R. reflexivity.
    + change (run_mode Top (slash :: body ++ [slash]))
        with (run_mode (InRegex false) (body ++ [slash])).
      rewrite run_mode_app, R. reflexivity.
Qed.

Lemma item_closed (w : str) : item w -> closed w.
Proof.
  induction 1 as [|p w Hp _ IH]; [now split|].
  apply closed_app; [now apply piece_closed | exact IH].
Qed.

Lemma items_chain (ws : list str) : Forall item ws -> chain ws.
Proof.
  induction 1 as [|w r Hw _ IH]; [exact I|].
  apply chain_cons; [now apply item_closed | exact IH].
Qed.

Lemma open_item_uncut (w : str) : open_item w -> uncut Top w = true.
Proof.
  intros [w' H|w' q body H Hq Hb|w' body H Hb|w' body H Hb].
  - now apply closed_uncut, item_closed.
  - destruct (item_closed w' H) as [U R].
    destruct (quoted_body_scan q body Hb) as [U' _].
    rewrite uncut_app, U, R.
    change (uncut Top (q :: body))
      with (negb (Ascii.eqb q comma) && uncut (mode_step Top q) body).
    now destruct Hq; subst.
  - destruct (item_closed w' H) as [U R].
    destruct (regex_body_scan body Hb) as [U' _].
    rewrite uncut_app, U, R. exact U'.
  - destruct (item_closed w' H) as [U R].
    destruct (regex_body_scan body Hb) as [U' R'].
    rewrite uncut_app, U, R.
    change (uncut Top (slash :: body ++ [backslash]))
      with (uncut (InRegex false) (body ++ [backslash])).
    now rewrite uncut_app, U', R'.
Qed.

Lemma items_open_chain (ws : list str) (w : str) :
  Forall item ws -> open_item w -> chain (ws ++ [w]).
Proof.
  intros H O. induction H as [|x r Hx _ IH]; simpl app.
  - now apply open_item_uncut.
  - apply chain_cons; [now apply item_closed | exact IH].
Qed.

(** *** Every text is a list of items *)

Lemma first_split (q : ascii) (r : str) :
  In q r -> exists body r', r = body ++ q :: r' /\ ~ In q body.
Proof.
  induction r as [|c r IH]; intros H; [contradiction|].
  destruct (ascii_dec c q) as [->|N].
  - exists [], r. auto.
  - destruct H as [H|H]; [contradiction|].
    destruct (IH H) as (body & r' & -> & Hb).
    exists (c :: body), r'. split; [reflexivity|].
    intros [G|G]; [contradiction | now apply Hb].
Qed.

(** What follows the opening slash of a regex: a body and its closing
    slash, or a body that is not ended. *)
Lemma regex_split (n : nat) : forall r : str,
  List.length r <= n ->
  (exists body r', r = body ++ slash :: r' /\ regex_body body)
  \/ regex_body r
  \/ (exists body, r = body ++ [backslash] /\ regex_body body).
Proof.
  induction n as [|n IH]; intros r Hn.
  - destruct r; [|simpl in Hn; lia]. right. left. constructor.
  - destruct r as [|c r]; [right; left; constructor|].
    simpl in Hn. destruct (ascii_dec c slash) as [->|Ns].
    + left. exists [], r. split; [reflexivity | constructor].
    + destruct (ascii_dec c backslash) as [->|Nb].
      * destruct r as [|d r].
        -- right. right. exists []. split; [reflexivity | constructor].
        -- simpl in Hn.
           destruct (IH r ltac:(lia)) as [(b & r' & -> & Hb)|[Hb|(b & -> & Hb)]].
           ++ left. exists (backslash :: d :: b), r'.
              split; [reflexivity | now constructor].
           ++ right. left. now constructor.
           ++ right. right. exists (backslash :: d :: b).
              split; [reflexivity | now constructor].
      * destruct (IH r ltac:(lia)) as [(b & r' & -> & Hb)|[Hb|(b & -> & Hb)]].
        -- left. exists (c :: b), r'. split; [reflexivity | now constructor].
        -- right. left. now constructor.
        -- right. right. exists (c :: b).
           split; [reflexivity | now constructor].
Qed.

Lemma open_item_prepend (p w : str) :
  piece p -> open_item w -> open_item (p ++ w).
Proof.
  intros Hp [w' H|w' q body H Hq Hb|w' body H Hb|w' body H Hb].
  - apply open_closed. now constructor.
  - rewrite app_assoc. apply open_quote; [now constructor | assumption..].
  - rewrite app_assoc. apply open_regex; [now constructor | assumption].
  - rewrite app_assoc. apply open_regex_escape; [now constructor | assumption].
Qed.

Lemma scan_after_piece (p r : str) :
  piece p ->
  uncut Top (p ++ r) = uncut Top r /\ run_mode Top (p ++ r) = run_mode Top r.
Proof.
  intros Hp. destruct (piece_closed p Hp) as [U R].
  now rewrite uncut_app, run_mode_app, U, R.
Qed.

(** A text that is not cut is an item, closed or left open. *)
Lemma uncut_grammar (n : nat) : forall t : str,
  List.length t <= n -> uncut Top t = true ->
  open_item t /\ (run_mode Top t = Top -> item t).
Proof.
  induction n as [|n IH]; intros t Hn U.
  - destruct t; [|simpl in Hn; lia]. split; repeat constructor.
  - destruct t as [|c r]; [split; repeat constructor|]. simpl in Hn.
    apply le_S_n in Hn.
    assert (G : forall p r', piece p -> c :: r = p ++ r' ->
                List.length r' <= n ->
                open_item (c :: r) /\ (run_mode Top (c :: r) = Top -> item (c :: r))).
    { intros p r' Hp E Hl. rewrite E in *.
      destruct (scan_after_piece p r' Hp) as [E1 E2]. rewrite E1 in U.
      destruct (IH r' Hl U) as [O C]. split.
      - now apply open_item_prepend.
      - rewrite E2. intros R. constructor; auto. }
    destruct (Ascii.eqb c squote || Ascii.eqb c dquote) eqn:Q.
    + assert (Hq : c = squote \/ c = dquote).
      { apply orb_prop in Q as [Q|Q]; apply Ascii.eqb_eq in Q; auto. }
      destruct (in_dec ascii_dec c r) as [I|I].
      * destruct (first_split c r I) as (body & r' & -> & Hb).
        apply (G (c :: body ++ [c]) r').
        -- now apply piece_quoted.
        -- simpl. now rewrite <- app_assoc.
        -- rewrite length_app in Hn. simpl in Hn. lia.
      * split.
        -- apply (open_quote [] c r); [constructor | assumption..].
        -- change (run_mode Top (c :: r)) with (run_mode (mode_step Top c) r).
           simpl mode_step. rewrite Q.
           destruct (quoted_body_scan c r I) as [_ ->]. discriminate.
    + destruct (Ascii.eqb c slash) eqn:S.
      * apply Ascii.eqb_eq in S. subst c.
        destruct (regex_split n r Hn) as [(b & r' & -> & Hb)|[Hb|(b & -> & Hb)]].
        -- apply (G (slash :: b ++ [slash]) r').
           ++ now apply piece_regex.
           ++ simpl. now rewrite <- app_assoc.
           ++ rewrite length_app in Hn. simpl in Hn. lia.
        -- split.
           ++ now apply (open_regex [] r); [constructor|].
           ++ change (run_mode Top (slash :: r))
                with (run_mode (InRegex false) r).
              destruct (regex_body_scan r Hb) as [_ ->]. discriminate.
        -- split.
           ++ now apply (open_regex_escape [] b); [constructor|].
           ++ change (run_mode Top (slash :: b ++ [backslash]))
                with (run_mode (InRegex false) (b ++ [backslash])).
              rewrite run_mode_app.
              destruct (regex_body_scan b Hb) as [_ ->]. discriminate.
      * apply (G [c] r); [|reflexivity|lia].
        apply orb_false_elim in Q as [Q1 Q2].
        apply Ascii.eqb_neq in Q1, Q2, S.
        apply piece_plain; try assumption.
        intros ->. simpl in U. discriminate U.
Qed.

Lemma closed_item (t : str) : closed t -> item t.
Proof.
  intros [U R]. now apply (uncut_grammar (List.length t) t (le_n _) U).
Qed.

Lemma uncut_open_item (t : str) : uncut Top t = true -> open_item t.
Proof.
  intros U. now apply (uncut_grammar (List.length t) t (le_n _) U).
Qed.

Lemma chain_grammar (gs : list str) :
  chain gs -> gs <> [] ->
  exists ws w, gs = ws ++ [w] /\ Forall item ws /\ open_item w.
Proof.
  induction gs as [|g r IH]; intros C N; [contradiction|].
  destruct r as [|h r].
  - exists [], g. split; [reflexivity|]. split; [constructor|].
    now apply uncut_open_item.
  - destruct C as [Cg Cr].
    destruct (IH Cr ltac:(discriminate)) as (ws & w & E & Hw & Ho).
    exists (g :: ws), w. rewrite E. split; [reflexivity|].
    split; [|assumption]. constructor; [now apply closed_item | assumption].
Qed.

Lemma join_segments (s : str) : forall m cur,
  Py.join comma (segments m cur s) = cur ++ s.
Proof.
  induction s as [|ch r IH]; intros m cur.
  - simpl. now rewrite app_nil_r.
  - assert (G : forall m', Py.join comma (segments m' (cur ++ [ch]) r)
                           = cur ++ ch :: r).
    { intros m'. rewrite IH. now rewrite <- app_assoc. }
    simpl. destruct m as [|q|e]; [|apply G..].
    destruct (Ascii.eqb ch comma) eqn:E; [|apply G].
    apply Ascii.eqb_eq in E. subst ch.
    destruct (segments_cur r Top []) as (h & t & E1 & _).
    rewrite E1. change (Py.join comma (cur :: h :: t))
      with (cur ++ comma :: Py.join comma (h :: t)).
    rewrite <- E1, IH. reflexivity.
Qed.

(** Every text is a comma-joined list of items, the last one possibly
    left open. *)
Lemma text_is_item_list (inner : str) :
  exists ws w, inner = Py.join comma (ws ++ [w])
               /\ Forall item ws /\ open_item w.
Proof.
  destruct (segments_cur inner Top []) as (h & t & E & _).
  destruct (chain_grammar (segments Top [] inner)) as (ws & w & E' & Hw & Ho).
  - now apply segments_chain.
  - rewrite E. discriminate.
  - exists ws, w. split; [|now split].
    rewrite <- E'. now rewrite join_segments.
Qed.

(** C6. For every inner text the tokens are the trimmed, non-empty
    pieces between the commas met at top level, that is outside quoted
    strings and slash-delimited regexes.  On a list of items the
    tokenizer splits exactly at the commas that separate them: an item
    may hold commas inside quoted strings and inside regexes (where a
    backslash-escaped slash does not end the regex), and the last item
    may leave a quoted string or a regex open; every text is such a
    list.  No token is ever empty,
    and the inner text of the scenario gives exactly two tokens. *)
Theorem tokenize_splits_at_top_level_commas :
  (forall inner : str,
      _tokenize_list inner
      = filter (@Py.truthy ascii) (map Py.strip (segments Top [] inner)))
  /\ (forall ws : list str,
         Forall item ws ->
         _tokenize_list (Py.join comma ws)
         = filter (@Py.truthy ascii) (map Py.strip ws))
  /\ (forall (ws : list str) (w : str),
         Forall item ws -> open_item w ->
         _tokenize_list (Py.join comma (ws ++ [w]))
         = filter (@Py.truthy ascii) (map Py.strip (ws ++ [w])))
  /\ (forall inner : str,
         exists ws w, inner = Py.join comma (ws ++ [w])
                      /\ Forall item ws /\ open_item w)
  /\ (forall inner : str, Forall (fun t => t <> []) (_tokenize_list inner))
  /\ _tokenize_list (py "'/a,b/', 'literal,with,comma'")
     = [py "'/a,b/'"; py "'literal,with,comma'"]
  /\ _tokenize_list (py "/a\/,b/i, c") = [py "/a\/,b/i"; py "c"].
Proof.
  split; [exact tokenize_clean|].
  split; [|split; [|split; [|split; [|split]]]].
  - intros ws H. apply tokenize_chain. now apply items_chain.
  - intros ws w H O. apply tokenize_chain. now apply items_open_chain.
  - exact text_is_item_list.
  - intros inner. rewrite tokenize_clean.
    eapply Forall_impl; [|apply clean_tokens_ok]. now intros t [N _].
  - reflexivity.
  - reflexivity.
Qed.

Lemma tokenize_splits_at_top_level_commas_witness :
  Forall item [py "'a,b'"; py ""; py "/c\/,d/"]
  /\ _tokenize_list (Py.join comma [py "'a,b'"; py ""; py "/c\/,d/"])
     = [py "'a,b'"; py "/c\/,d/"].
Proof.
  assert (H : Forall item [py "'a,b'"; py ""; py "/c\/,d/"]).
  { repeat constructor.
    - apply (item_app (squote :: py "a,b" ++ [squote]) []); [|constructor].
      apply piece_quoted; [now left|].
      simpl. intros G. repeat (destruct G as [G|G]; [discriminate G|]). exact G.
    - apply (item_app (slash :: py "c\/,d" ++ [slash]) []); [|constructor].
      apply piece_regex.
      apply rb_char; [discriminate|discriminate|].
      apply rb_escaped.
      repeat (apply rb_char; [discriminate|discriminate|]). constructor. }
  split; [exact H|].
  exact (proj1 (proj2 tokenize_splits_at_top_level_commas) _ H).
Defined.

(** C7. Re-joining the tokens with commas and tokenizing again is
    idempotent: the tokens of the re-joined tokens tokenize to
    themselves. *)
Theorem tokenize_rejoin_idempotent (s : str) :
  let ts := _tokenize_list s in
  _tokenize_list (Py.join comma (_tokenize_list (Py.join comma ts)))
  = _tokenize_list (Py.join comma ts).
Proof.
  intros ts. unfold ts. now rewrite !tokenize_join_tokenize.
Qed.

(** ** The validation pass *)

Section Validation.

Context {L : PythonLib}.
Variables (env : dict str) (civ : bool).

Lemma dict_mem_In {V} (k : str) (d : dict V) :
  dict_mem k d = true <-> In k (keys d).
Proof. apply mem_In. Qed.

Lemma dict_mem_false {V} (k : str) (d : dict V) :
  dict_mem k d = false <-> ~ In k (keys d).
Proof.
  rewrite <- dict_mem_In. destruct (dict_mem k d); split; congruence.
Qed.

Lemma has_setting_spec (n : str) (i : ValidationIssue) :
  has_setting n i = true <-> setting i = Some n.
Proof.
  unfold has_setting. destruct (setting i) as [s|].
  - rewrite eqb_spec. split; congruence.
  - split; discriminate.
Qed.

(** What one turn of the schema loop appends: nothing, or one issue
    that carries the entry's name. *)
Lemma check_option_cases (n : str) (o : ConfigOption) :
  match dict_get n env with
  | None => fst (check_option n o env civ) = [missing_issue n o]
  | Some raw_value =>
      match _coerce_by_type raw_value (type_name o) with
      | ValueError e =>
          fst (check_option n o env civ) = [type_mismatch_issue n o raw_value e]
      | Return _ =>
          fst (check_option n o env civ) = []
          \/ fst (check_option n o env civ) = [invalid_value_issue n o raw_value]
      end
  end.
Proof.
  unfold check_option. destruct (dict_get n env) as [raw|]; [|reflexivity].
  destruct (_coerce_by_type raw (type_name o)) as [[pv canon]|e]; [|reflexivity].
  destruct (Py.truthy (or_empty (valid_literals o))
            || Py.truthy (or_empty (_compiled_regex o))); [|now left].
  destruct (allowed_check o raw pv canon civ) as [[] calls]; auto.
Qed.

Lemma missing_issue_setting (n : str) (o : ConfigOption) :
  setting (missing_issue n o) = Some n /\ code (missing_issue n o) = missing.
Proof. unfold missing_issue. now destruct (required o). Qed.

Lemma check_option_setting (n : str) (o : ConfigOption) (i : ValidationIssue) :
  In i (fst (check_option n o env civ)) ->
  setting i = Some n
  /\ (code i = missing \/ code i = type_mismatch \/ code i = invalid_value).
Proof.
  pose proof (check_option_cases n o) as H.
  destruct (dict_get n env) as [raw|].
  - destruct (_coerce_by_type raw (type_name o)) as [r|e].
    + destruct H as [-> | ->]; [contradiction|].
      intros [<-|[]]. simpl. auto.
    + rewrite H. intros [<-|[]]. simpl. auto.
  - rewrite H. intros [<-|[]].
    destruct (missing_issue_setting n o) as [-> ->]. auto.
Qed.

Lemma check_option_length (n : str) (o : ConfigOption) :
  List.length (fst (check_option n o env civ)) <= 1.
Proof.
  pose proof (check_option_cases n o) as H.
  destruct (dict_get n env) as [raw|].
  - destruct (_coerce_by_type raw (type_name o)) as [r|e].
    + destruct H as [-> | ->]; simpl; lia.
    + rewrite H. simpl. lia.
  - rewrite H. simpl. lia.
Qed.

Lemma schema_pass_issues (s : dict ConfigOption) :
  fst (schema_pass s env civ) = flat_map (entry_issues env civ) s.
Proof.
  induction s as [|[n o] r IH]; [reflexivity|].
  simpl. unfold entry_issues at 1. simpl.
  destruct (check_option n o env civ) as [iss calls].
  destruct (schema_pass r env civ) as [iss' calls']. simpl in *.
  now rewrite IH.
Qed.

Lemma validate_env_issues (schema : dict ConfigOption) (strict : bool) :
  issues (validate_env schema env strict civ)
  = (if strict then unknown_pass schema env else [])
    ++ flat_map (entry_issues env civ) schema.
Proof.
  unfold validate_env, validate_env_run.
  rewrite <- schema_pass_issues.
  now destruct (schema_pass schema env civ) as [iss calls].
Qed.

Lemma entry_issues_keep (n : str) (o : ConfigOption) :
  filter (has_setting n) (entry_issues env civ (n, o))
  = entry_issues env civ (n, o).
Proof.
  apply forallb_filter_id. apply forallb_forall. intros i Hi.
  apply has_setting_spec. now apply (check_option_setting n o).
Qed.

Lemma entry_issues_drop (n k : str) (o : ConfigOption) :
  k <> n -> filter (has_setting n) (entry_issues env civ (k, o)) = [].
Proof.
  intros N. 
  assert (H : forall l, (forall i, In i l -> setting i = Some k) ->
                        filter (has_setting n) l = []).
  { induction l as [|i l IH]; intros A; [reflexivity|].
    simpl. destruct (has_setting n i) eqn:E.
    - apply has_setting_spec in E. rewrite (A i (or_introl eq_refl)) in E.
      congruence.
    - apply IH. intros j Hj. apply A. now right. }
  apply H. intros i Hi. now apply (check_option_setting k o).
Qed.

Lemma schema_issues_absent (n : str) (s : dict ConfigOption) :
  ~ In n (keys s) ->
  filter (has_setting n) (flat_map (entry_issues env civ) s) = [].
Proof.
  induction s as [|[k o] r IH]; intros H; [reflexivity|].
  simpl flat_map. rewrite filter_app, IH.
  - rewrite entry_issues_drop; [reflexivity|].
    intros ->. apply H. now left.
  - intros G. apply H. now right.
Qed.

Lemma schema_issues_entry (n : str) (o : ConfigOption) (s : dict ConfigOption) :
  dict_wf s -> In (n, o) s ->
  filter (has_setting n) (flat_map (entry_issues env civ) s)
  = entry_issues env civ (n, o).
Proof.
  unfold dict_wf. induction s as [|[k o'] r IH]; intros W H; [contradiction|].
  simpl in W. inversion W as [|? ? Hk Wr]; subst.
  simpl flat_map. rewrite filter_app. destruct H as [H|H].
  - injection H as -> ->. rewrite entry_issues_keep.
    rewrite schema_issues_absent by assumption. apply app_nil_r.
  - rewrite entry_issues_drop.
    + now apply IH.
    + intros ->. apply Hk. change n with (fst (n, o)). now apply in_map.
Qed.

Lemma unknown_pass_setting {V} (schema : dict V) (i : ValidationIssue) :
  In i (unknown_pass schema env) ->
  exists key, i = unknown_issue key /\ In key (keys env)
              /\ ~ In key (keys schema).
Proof.
  unfold unknown_pass. intros H. apply in_map_iff in H as (key & <- & H).
  apply filter_In in H as [H N]. exists key. split; [reflexivity|].
  split.
  - revert H. unfold sorted. generalize (keys env) as l.
    induction l as [|x l IH]; simpl; [trivial|].
    intros H. 
    assert (G : forall y m, In y (insert_sorted x m) -> y = x \/ In y m).
    { induction m as [|z m IHm]; simpl.
      - intros [<-|[]]. now left.
      - destruct (str_leb x z); simpl.
        + intros [<-|[<-|G]]; auto.
        + intros [<-|G]; [auto|]. destruct (IHm G); auto. }
    destruct (G _ _ H) as [->|G']; auto.
  - apply dict_mem_false. now apply negb_true_iff.
Qed.

Lemma unknown_issues_absent {V} (n : str) (schema : dict V) :
  In n (keys schema) -> filter (has_setting n) (unknown_pass schema env) = [].
Proof.
  intros H. 
  assert (G : forall l, (forall i, In i l -> has_setting n i = false) ->
                        filter (has_setting n) l = []).
  { induction l as [|i l IH]; intros A; [reflexivity|].
    simpl. rewrite (A i (or_introl eq_refl)). apply IH.
    intros j Hj. apply A. now right. }
  apply G. intros i Hi.
  destruct (unknown_pass_setting schema i Hi) as (key & -> & _ & N).
  unfold has_setting. simpl. apply eqb_false. intros ->. contradiction.
Qed.

(** With one entry per name in the schema, the issues of a name of the
    schema are those its entry appended. *)
Lemma issues_for_entry (schema : dict ConfigOption) (strict : bool)
    (n : str) (o : ConfigOption) :
  dict_wf schema -> In (n, o) schema ->
  issues_for n (validate_env schema env strict civ)
  = entry_issues env civ (n, o).
Proof.
  intros W H. unfold issues_for. rewrite validate_env_issues, filter_app.
  rewrite (schema_issues_entry n o schema W H).
  destruct strict; [|reflexivity].
  rewrite unknown_issues_absent; [reflexivity|].
  change n with (fst (n, o)). now apply in_map.
Qed.

End Validation.

Lemma dict_get_None {V} (k : str) (d : dict V) :
  dict_get k d = None <-> ~ In k (keys d).
Proof.
  induction d as [|[k' v] r IH]; simpl.
  - split; auto.
  - destruct (Py.eqb k k') eqn:E.
    + apply eqb_spec in E. subst. split; [discriminate|].
      intros H. exfalso. apply H. now left.
    + apply eqb_false in E. rewrite IH. split.
      * intros H [G|G]; [congruence | contradiction].
      * intros H G. apply H. now right.
Qed.

(** C1. A value that is present but fails type coercion gives exactly
    one issue for its key, an error-level type_mismatch, and no
    invalid_value issue for that key, whatever literals or patterns the
    option declares; no pattern is tried for it. *)
Theorem type_mismatch_suppresses_invalid_value {L : PythonLib}
    (schema : dict ConfigOption) (env : dict str) (strict civ : bool)
    (n : str) (o : ConfigOption) (raw_value e : str) :
  dict_wf schema -> In (n, o) schema ->
  dict_get n env = Some raw_value ->
  _coerce_by_type raw_value (type_name o) = ValueError e ->
  let r := validate_env schema env strict civ in
  (exists i, issues_for n r = [i]
             /\ level i = error /\ code i = type_mismatch
             /\ details i = Some (DetailsType (type_name o) raw_value))
  /\ (forall i, In i (issues r) -> setting i = Some n ->
                code i <> invalid_value)
  /\ snd (check_option n o env civ) = [].
Proof.
  intros W H G C r.
  assert (E : issues_for n r = [type_mismatch_issue n o raw_value e]).
  { unfold r. rewrite (issues_for_entry env civ schema strict n o W H).
    unfold entry_issues. simpl.
    pose proof (check_option_cases env civ n o) as K.
    now rewrite G, C in K. }
  split; [|split].
  - exists (type_mismatch_issue n o raw_value e). now rewrite E.
  - intros i Hi Hs.
    assert (Hf : In i (issues_for n r)).
    { apply filter_In. split; [assumption | now apply has_setting_spec]. }
    rewrite E in Hf. destruct Hf as [<-|[]]. discriminate.
  - unfold check_option. now rewrite G, C.
Qed.

Lemma type_mismatch_suppresses_invalid_value_witness :
  let r := @validate_env sample_lib sample_schema env_bad_port true true in
  (exists i, issues_for (py "PORT") r = [i]
             /\ level i = error /\ code i = type_mismatch
             /\ details i = Some (DetailsType (py "int") (py "eighty")))
  /\ (forall i, In i (issues r) -> setting i = Some (py "PORT") ->
                code i <> invalid_value)
  /\ snd (@check_option sample_lib (py "PORT") port_option env_bad_port true)
     = [].
Proof.
  apply (@type_mismatch_suppresses_invalid_value sample_lib sample_schema
           env_bad_port true true (py "PORT") port_option (py "eighty")
           (py "expected an integer (e.g., -10, 0, 42)")).
  - repeat constructor; simpl; intuition discriminate.
  - now left.
  - reflexivity.
  - reflexivity.
Defined.

(** C2. A schema option whose key is absent from the configuration gives
    exactly one issue for its name, a missing issue: an error when the
    option is required (whatever its default, which the issue only
    reports), a warning otherwise; nothing else is checked for it. *)
Theorem absent_key_one_missing_issue {L : PythonLib}
    (schema : dict ConfigOption) (env : dict str) (strict civ : bool)
    (n : str) (o : ConfigOption) :
  dict_wf schema -> In (n, o) schema -> ~ In n (keys env) ->
  exists i,
    issues_for n (validate_env schema env strict civ) = [i]
    /\ code i = missing
    /\ level i = (if required o then error else warning)
    /\ setting i = Some n
    /\ details i = Some (DetailsMissing (default o) (note o))
    /\ snd (check_option n o env civ) = [].
Proof.
  intros W H A. exists (missing_issue n o). apply dict_get_None in A. split.
  - rewrite (issues_for_entry env civ schema strict n o W H).
    unfold entry_issues. simpl.
    pose proof (check_option_cases env civ n o) as K.
    now rewrite A in K.
  - unfold check_option. rewrite A.
    unfold missing_issue. now destruct (required o).
Qed.

Lemma absent_key_one_missing_issue_witness :
  exists i,
    issues_for (py "DEBUG")
      (@validate_env sample_lib sample_schema env_bad_port true true) = [i]
    /\ code i = missing
    /\ level i = warning
    /\ setting i = Some (py "DEBUG")
    /\ details i = Some (DetailsMissing (Some (py "false"))
                                        (Some (py "verbose logs")))
    /\ snd (@check_option sample_lib (py "DEBUG") debug_option
              env_bad_port true) = [].
Proof.
  apply (@absent_key_one_missing_issue sample_lib sample_schema env_bad_port
           true true (py "DEBUG") debug_option).
  - repeat constructor; simpl; intuition discriminate.
  - right. now left.
  - simpl. intuition discriminate.
Defined.

(** ** The order of the issues *)

Lemma str_leb_total (a : str) : forall b, str_leb a b = false -> str_leb b a = true.
Proof.
  induction a as [|x a IH]; intros [|y b]; simpl; try easy.
  destruct (Nat.ltb_spec (nat_of_ascii x) (nat_of_ascii y)); [discriminate|].
  destruct (Nat.ltb_spec (nat_of_ascii y) (nat_of_ascii x)); [reflexivity|].
  apply IH.
Qed.

Lemma str_leb_trans (a : str) : forall b c,
  str_leb a b = true -> str_leb b c = true -> str_leb a c = true.
Proof.
  induction a as [|x a IH]; intros [|y b] [|z c]; simpl; try easy.
  destruct (Nat.ltb_spec (nat_of_ascii x) (nat_of_ascii y));
  destruct (Nat.ltb_spec (nat_of_ascii y) (nat_of_ascii x));
  destruct (Nat.ltb_spec (nat_of_ascii y) (nat_of_ascii z));
  destruct (Nat.ltb_spec (nat_of_ascii z) (nat_of_ascii y));
  destruct (Nat.ltb_spec (nat_of_ascii x) (nat_of_ascii z));
  destruct (Nat.ltb_spec (nat_of_ascii z) (nat_of_ascii x));
  try easy; try lia.
  apply IH.
Qed.

Lemma insert_sorted_perm (x : str) (l : list str) :
  Permutation (insert_sorted x l) (x :: l).
Proof.
  induction l as [|y r IH]; simpl; [apply Permutation_refl|].
  destruct (str_leb x y); [apply Permutation_refl|].
  eapply perm_trans; [apply perm_skip, IH | apply perm_swap].
Qed.

Lemma sorted_perm (l : list str) : Permutation (sorted l) l.
Proof.
  induction l as [|x r IH]; simpl; [constructor|].
  eapply perm_trans; [apply insert_sorted_perm | now apply perm_skip].
Qed.

Lemma insert_sorted_strongly (x : str) (l : list str) :
  StronglySorted str_le l -> StronglySorted str_le (insert_sorted x l).
Proof.
  induction 1 as [|y r Hr IH Hy]; simpl.
  - repeat constructor.
  - destruct (str_leb x y) eqn:E.
    + constructor; [now constructor|]. constructor; [exact E|].
      eapply Forall_impl; [|exact Hy]. intros z Hz.
      exact (str_leb_trans x y z E Hz).
    + constructor; [exact IH|].
      apply (@Permutation_Forall _ (str_le y) (x :: r)).
      * symmetry. apply insert_sorted_perm.
      * constructor; [|exact Hy]. now apply str_leb_total.
Qed.

Lemma sorted_strongly (l : list str) : StronglySorted str_le (sorted l).
Proof.
  induction l as [|x r IH]; simpl; [constructor|].
  now apply insert_sorted_strongly.
Qed.

Lemma filter_strongly (f : str -> bool) (l : list str) :
  StronglySorted str_le l -> StronglySorted str_le (filter f l).
Proof.
  induction 1 as [|y r Hr IH Hy]; simpl; [constructor|].
  destruct (f y); [|exact IH]. constructor; [exact IH|].
  apply Forall_forall. intros z Hz. apply filter_In in Hz as [Hz _].
  revert z Hz. now apply Forall_forall.
Qed.

Lemma filter_perm (f : str -> bool) (l l' : list str) :
  Permutation l l' -> Permutation (filter f l) (filter f l').
Proof.
  induction 1 as [|x l l' _ IH|x y l|l l' l'' _ IH1 _ IH2]; simpl.
  - constructor.
  - destruct (f x); [now constructor | exact IH].
  - destruct (f x), (f y); try apply Permutation_refl. apply perm_swap.
  - now apply perm_trans with (filter f l').
Qed.

(** C3, as the program has it.  The unknown-key pass comes first: with
    strict_unknown, one error/unknown issue per configuration key that
    is absent from the schema, the keys in sorted order; then the issues
    of the schema entries, in the order of the schema. *)
Theorem issues_unknown_then_schema {L : PythonLib}
    (schema : dict ConfigOption) (env : dict str) (strict civ : bool) :
  let unknown_keys :=
    filter (fun key => negb (dict_mem key schema)) (keys env) in
  exists ks,
    issues (validate_env schema env strict civ)
    = map unknown_issue (if strict then ks else [])
      ++ flat_map (entry_issues env civ) schema
    /\ StronglySorted str_le ks
    /\ Permutation ks unknown_keys
    /\ Forall (fun k => level (unknown_issue k) = error
                        /\ code (unknown_issue k) = unknown
                        /\ setting (unknown_issue k) = Some k) ks.
Proof.
  intros unknown_keys.
  exists (filter (fun key => negb (dict_mem key schema)) (sorted (keys env))).
  split; [|split; [|split]].
  - rewrite validate_env_issues. now destruct strict.
  - apply filter_strongly, sorted_strongly.
  - apply filter_perm, sorted_perm.
  - apply Forall_forall. now intros k _.
Qed.

(** C3, as the claim states it, fails: with strict_unknown the issue of
    the unknown key FOO comes before the issue of the schema entry. *)
Lemma issues_schema_then_unknown_counterexample :
  map code (issues (@validate_env sample_lib sample_schema env_foo true true))
  = [unknown; missing; missing]
  /\ map setting
       (issues (@validate_env sample_lib sample_schema env_foo true true))
     = [Some (py "FOO"); Some (py "PORT"); Some (py "DEBUG")]
  /\ issues (@validate_env sample_lib sample_schema env_foo true true)
     <> flat_map (entry_issues env_foo true) sample_schema
        ++ unknown_pass sample_schema env_foo.
Proof.
  split; [reflexivity | split; [reflexivity|]].
  intros H. apply (f_equal (map code)) in H. vm_compute in H. discriminate H.
Qed.

(** ** At most one issue per name *)

Lemma unknown_filter_length (n : str) (ks : list str) :
  NoDup ks ->
  List.length (filter (has_setting n) (map unknown_issue ks)) <= 1.
Proof.
  induction 1 as [|k r Hk _ IH]; simpl; [lia|].
  unfold has_setting at 1. simpl. destruct (Py.eqb k n) eqn:E; [|exact IH].
  apply eqb_spec in E. subst k.
  replace (filter (has_setting n) (map unknown_issue r)) with (@nil ValidationIssue);
    [simpl; lia|].
  symmetry. clear IH. induction r as [|x r IH]; [reflexivity|].
  simpl. unfold has_setting at 1. simpl.
  destruct (Py.eqb x n) eqn:E.
  - apply eqb_spec in E. subst x. exfalso. apply Hk. now left.
  - apply IH. intros G. apply Hk. now right.
Qed.

Lemma unknown_keys_nodup {V} (schema : dict V) (env : dict str) :
  dict_wf env ->
  NoDup (filter (fun key => negb (dict_mem key schema)) (sorted (keys env))).
Proof.
  intros W. apply NoDup_filter.
  apply (Permutation_NoDup (l := keys env)); [|exact W].
  symmetry. apply sorted_perm.
Qed.

Lemma in_keys_entry {V} (n : str) (d : dict V) :
  In n (keys d) -> exists v, In (n, v) d.
Proof.
  unfold keys. intros H. apply in_map_iff in H as ([k v] & E & H).
  simpl in E. subst k. now exists v.
Qed.

(** C10. With one entry per name in the schema and in the
    configuration, a run has at most one issue per name: for a name of
    the schema it is a missing, type_mismatch or invalid_value issue (or
    none), and an unknown issue always names a configuration key that
    is not in the schema. *)
Theorem one_issue_per_name {L : PythonLib}
    (schema : dict ConfigOption) (env : dict str) (strict civ : bool) :
  dict_wf schema -> dict_wf env ->
  (forall n,
      List.length (issues_for n (validate_env schema env strict civ)) <= 1)
  /\ (forall n i,
         In n (keys schema) ->
         In i (issues_for n (validate_env schema env strict civ)) ->
         code i = missing \/ code i = type_mismatch \/ code i = invalid_value)
  /\ (forall i,
         In i (issues (validate_env schema env strict civ)) ->
         code i = unknown ->
         exists k, setting i = Some k /\ In k (keys env)
                   /\ ~ In k (keys schema)).
Proof.
  intros Ws We. split; [|split].
  - intros n. destruct (dict_mem n schema) eqn:M.
    + apply dict_mem_In, in_keys_entry in M as (o & Ho).
      rewrite (issues_for_entry env civ schema strict n o Ws Ho).
      apply check_option_length.
    + apply dict_mem_false in M. unfold issues_for.
      rewrite validate_env_issues, filter_app.
      rewrite (schema_issues_absent env civ n schema M), app_nil_r.
      destruct strict; [|simpl; lia].
      apply unknown_filter_length. now apply unknown_keys_nodup.
  - intros n i Hn Hi. apply in_keys_entry in Hn as (o & Ho).
    rewrite (issues_for_entry env civ schema strict n o Ws Ho) in Hi.
    now apply (check_option_setting env civ n o).
  - intros i Hi Hc. rewrite validate_env_issues in Hi.
    apply in_app_or in Hi as [Hi|Hi].
    + destruct strict; [|contradiction].
      destruct (unknown_pass_setting env schema i Hi) as (k & -> & A & B).
      now exists k.
    + apply in_flat_map in Hi as ([n o] & _ & Hi).
      apply (check_option_setting env civ n o) in Hi as [_ [H|[H|H]]];
        congruence.
Qed.

Lemma one_issue_per_name_witness :
  (forall n,
      List.length
        (issues_for n (@validate_env sample_lib sample_schema env_unknown
                         true true)) <= 1)
  /\ (forall n i,
         In n (keys sample_schema) ->
         In i (issues_for n (@validate_env sample_lib sample_schema
                               env_unknown true true)) ->
         code i = missing \/ code i = type_mismatch \/ code i = invalid_value)
  /\ (forall i,
         In i (issues (@validate_env sample_lib sample_schema env_unknown
                         true true)) ->
         code i = unknown ->
         exists k, setting i = Some k /\ In k (keys env_unknown)
                   /\ ~ In k (keys sample_schema)).
Proof.
  apply (@one_issue_per_name sample_lib sample_schema env_unknown true true).
  - repeat constructor; simpl; intuition discriminate.
  - repeat constructor; simpl; intuition discriminate.
Defined.

(** ** The allowed-values check *)

Lemma regex_compare_spec {L : PythonLib} (regex_pairs : list (Pattern * str))
    (raw_value : str) :
  regex_compare regex_pairs raw_value
  = (existsb (fun p => fullmatch (fst p) raw_value) regex_pairs,
     map (fun p => (fst p, raw_value)) (tried_patterns regex_pairs raw_value)).
Proof.
  induction regex_pairs as [|[compiled display] r IH]; [reflexivity|].
  simpl. destruct (fullmatch compiled raw_value); [reflexivity|].
  now rewrite IH.
Qed.

(** C8. For a value that is present and coerces, the literal compare
    comes first; [fullmatch] is called only when no literal matched, on
    the patterns in order up to the first that matches, each time with
    the raw value and never with the canonical form; the value is
    accepted when a literal or any one pattern matches. *)
Theorem allowed_literal_then_regex_on_raw {L : PythonLib}
    (env : dict str) (civ : bool) (n : str) (o : ConfigOption)
    (raw_value : str) (py_val : PyVal) (canon_str : str) :
  dict_get n env = Some raw_value ->
  _coerce_by_type raw_value (type_name o) = Return (py_val, canon_str) ->
  let literals := or_empty (valid_literals o) in
  let regex_pairs := or_empty (_compiled_regex o) in
  let literal_ok :=
    Py.truthy literals && literal_compare o py_val canon_str civ literals in
  let regex_ok :=
    existsb (fun p => fullmatch (fst p) raw_value) regex_pairs in
  check_option n o env civ
  = (if negb (Py.truthy literals || Py.truthy regex_pairs)
        || literal_ok || regex_ok
     then [] else [invalid_value_issue n o raw_value],
     if literal_ok then []
     else map (fun p => (fst p, raw_value))
              (tried_patterns regex_pairs raw_value)).
Proof.
  intros G C literals regex_pairs literal_ok regex_ok.
  unfold check_option. rewrite G, C.
  fold literals regex_pairs. unfold allowed_check.
  fold literals regex_pairs. unfold literal_ok, regex_ok.
  destruct (Py.truthy literals) eqn:TL; simpl.
  - destruct (literal_compare o py_val canon_str civ literals); simpl;
      [reflexivity|].
    destruct (Py.truthy regex_pairs) eqn:TR.
    + rewrite regex_compare_spec.
      now destruct (existsb (fun p => fullmatch (fst p) raw_value) regex_pairs).
    + destruct regex_pairs; [reflexivity | discriminate TR].
  - destruct (Py.truthy regex_pairs) eqn:TR.
    + rewrite regex_compare_spec.
      now destruct (existsb (fun p => fullmatch (fst p) raw_value) regex_pairs).
    + destruct regex_pairs; [reflexivity | discriminate TR].
Qed.

(** With the sample PORT option (literals 80 and 443, a pattern that
    matches the text +8080 only): the raw value +8080, whose canonical
    form is 8080, is accepted by the pattern; the raw value 8080 is an
    invalid_value; +80 equals the literal 80 and no pattern is tried. *)
Lemma allowed_literal_then_regex_on_raw_witness :
  @check_option sample_lib (py "PORT") port_option (env_port "+8080") true
  = ([], [(py "+8080", py "+8080")])
  /\ @_coerce_by_type sample_lib (py "+8080") (py "int")
     = Return (VInt 8080, py "8080")
  /\ map code (fst (@check_option sample_lib (py "PORT") port_option
                      (env_port "8080") true)) = [invalid_value]
  /\ @check_option sample_lib (py "PORT") port_option (env_port "+80") true
     = ([], []).
Proof.
  split; [|split; [|split]].
  - exact (@allowed_literal_then_regex_on_raw sample_lib (env_port "+8080")
             true (py "PORT") port_option (py "+8080") (VInt 8080)
             (py "8080") eq_refl eq_refl).
  - reflexivity.
  - reflexivity.
  - reflexivity.
Defined.

(** ** The typed literal compare *)

Lemma is_typed_cases (ty : str) :
  is_typed ty = true -> ty = py "bool" \/ ty = py "int" \/ ty = py "float".
Proof.
  unfold is_typed. rewrite mem_In. simpl. intuition.
Qed.

(** The coercions of the typed kinds return a bool, an int or a float,
    never a string. *)
Lemma typed_coerce_kind {L : PythonLib} (ty value : str) (v : PyVal) (c : str) :
  is_typed ty = true -> _coerce_by_type value ty = Return (v, c) ->
  match v with
  | VBool _ => ty = py "bool"
  | VInt _ => ty = py "int"
  | VFloat _ => ty = py "float"
  | VStr _ => False
  end.
Proof.
  intros T. destruct (is_typed_cases ty T) as [-> | [-> | ->]].
  - change (_coerce_by_type value (py "bool")) with (_coerce_bool value).
    unfold _coerce_bool.
    destruct (Py.mem _ _BOOL_TRUE); [intros [= <- _]; reflexivity|].
    destruct (Py.mem _ _BOOL_FALSE); [intros [= <- _]; reflexivity|].
    discriminate.
  - change (_coerce_by_type value (py "int")) with (_coerce_int value).
    unfold _coerce_int. destruct (int_of_str _); [|discriminate].
    intros [= <- _]. reflexivity.
  - change (_coerce_by_type value (py "float")) with (_coerce_float value).
    unfold _coerce_float. destruct (float_of_str _); [|discriminate].
    intros [= <- _]. reflexivity.
Qed.

Lemma normalize_typed {L : PythonLib} (ty lit : str) :
  is_typed ty = true ->
  _normalize_literal_for_type lit ty
  = match coerced_literal ty lit with
    | Some v => v
    | None => VStr lit
    end.
Proof.
  intros T. unfold _normalize_literal_for_type, coerced_literal.
  destruct (_coerce_by_type lit ty) as [[v c]|e]; [|reflexivity].
  now rewrite T.
Qed.

Lemma literal_compare_typed {L : PythonLib} (o : ConfigOption)
    (py_val : PyVal) (canon_str : str) (civ : bool) (literals : list str) :
  is_typed (type_name o) = true -> is_str py_val = false ->
  literal_compare o py_val canon_str civ literals
  = existsb (fun lit => match coerced_literal (type_name o) lit with
                        | Some v => py_eq py_val v
                        | None => false
                        end) literals.
Proof.
  intros T S. unfold literal_compare, py_in. rewrite T.
  induction literals as [|lit r IH]; [reflexivity|].
  simpl. rewrite IH, (normalize_typed _ lit T). f_equal.
  destruct (coerced_literal (type_name o) lit); [reflexivity|].
  now destruct py_val.
Qed.

(** C9. For an option of type bool, int or float whose value coerces,
    the literal compare holds exactly when the typed value equals, by
    Python's equality on typed values, the typed value of some allowed
    literal that coerces for that type.  A literal that does not coerce
    never matches: taking it out of the list changes nothing, and the
    entry still appends no issue or one invalid_value issue.  On bool
    and int the equality is identity of the typed values; on float it
    is the equality of floats. *)
Theorem typed_literal_compare {L : PythonLib}
    (o : ConfigOption) (raw_value : str) (py_val : PyVal) (canon_str : str)
    (civ : bool) :
  is_typed (type_name o) = true ->
  _coerce_by_type raw_value (type_name o) = Return (py_val, canon_str) ->
  (forall literals,
      literal_compare o py_val canon_str civ literals = true
      <-> exists lit v, In lit literals
                        /\ coerced_literal (type_name o) lit = Some v
                        /\ py_eq py_val v = true)
  /\ (forall l1 lit l2,
         coerced_literal (type_name o) lit = None ->
         literal_compare o py_val canon_str civ (l1 ++ lit :: l2)
         = literal_compare o py_val canon_str civ (l1 ++ l2))
  /\ (forall lit v,
         coerced_literal (type_name o) lit = Some v ->
         match py_val, v with
         | VBool a, VBool b => py_eq py_val v = true <-> a = b
         | VInt a, VInt b => py_eq py_val v = true <-> a = b
         | VFloat a, VFloat b => py_eq py_val v = float_eq a b
         | _, _ => False
         end)
  /\ (forall n env,
         dict_get n env = Some raw_value ->
         fst (check_option n o env civ) = []
         \/ fst (check_option n o env civ) = [invalid_value_issue n o raw_value]).
Proof.
  intros T C.
  assert (S : is_str py_val = false).
  { pose proof (typed_coerce_kind _ _ _ _ T C) as K.
    destruct py_val; [contradiction | reflexivity..]. }
  split; [|split; [|split]].
  - intros literals. rewrite (literal_compare_typed o _ _ _ _ T S).
    rewrite existsb_exists. split.
    + intros (lit & Hin & H).
      destruct (coerced_literal (type_name o) lit) as [v|] eqn:E;
        [|discriminate]. now exists lit, v.
    + intros (lit & v & Hin & E & H). exists lit. now rewrite E.
  - intros l1 lit l2 E. rewrite !(literal_compare_typed o _ _ _ _ T S).
    rewrite !existsb_app. simpl. now rewrite E.
  - intros lit v E. unfold coerced_literal in E.
    destruct (_coerce_by_type lit (type_name o)) as [[v' c]|e] eqn:C';
      [|discriminate].
    injection E as ->.
    pose proof (typed_coerce_kind _ _ _ _ T C) as K.
    pose proof (typed_coerce_kind _ _ _ _ T C') as K'.
    destruct py_val as [s|a|a|a]; [contradiction| | |];
      destruct v as [s'|b|b|b]; try contradiction;
      try (rewrite K in K'; vm_compute in K'; discriminate K').
    + simpl. destruct a, b; simpl; split; congruence.
    + simpl. apply Z.eqb_eq.
    + reflexivity.
  - intros n env G. pose proof (check_option_cases env civ n o) as K.
    now rewrite G, C in K.
Qed.

Lemma typed_literal_compare_witness :
  (@literal_compare sample_lib port_option (VInt 80) (py "80") true
     [py "80"; py "443"; py "http"] = true
   <-> exists lit v,
         In lit [py "80"; py "443"; py "http"]
         /\ @coerced_literal sample_lib (py "int") lit = Some v
         /\ py_eq (VInt 80) v = true)
  /\ @coerced_literal sample_lib (py "int") (py "http") = None
  /\ @literal_compare sample_lib port_option (VInt 80) (py "80") true
       ([py "80"; py "443"] ++ py "http" :: [])
     = @literal_compare sample_lib port_option (VInt 80) (py "80") true
         ([py "80"; py "443"] ++ []).
Proof.
  pose proof (@typed_literal_compare sample_lib port_option (py "+080")
                (VInt 80) (py "80") true eq_refl eq_refl) as (A & B & _ & _).
  split; [exact (A [py "80"; py "443"; py "http"])|].
  split; [reflexivity|].
  exact (B [py "80"; py "443"] (py "http") [] eq_refl).
Defined.

(** ** The default of an option *)

Lemma lower_char_n (c : ascii) :
  Py.lower_char c = "n"%char -> c = "n"%char \/ c = "N"%char.
Proof.
  destruct c as [[] [] [] [] [] [] [] []]; vm_compute; intros H;
    try discriminate H; auto.
Qed.

Lemma lower_char_o (c : ascii) :
  Py.lower_char c = "o"%char -> c = "o"%char \/ c = "O"%char.
Proof.
  destruct c as [[] [] [] [] [] [] [] []]; vm_compute; intros H;
    try discriminate H; auto.
Qed.

Lemma lower_char_e (c : ascii) :
  Py.lower_char c = "e"%char -> c = "e"%char \/ c = "E"%char.
Proof.
  destruct c as [[] [] [] [] [] [] [] []]; vm_compute; intros H;
    try discriminate H; auto.
Qed.

Lemma lower_none (raw : str) :
  Py.lower raw = py "none" <-> none_spelling raw.
Proof.
  split.
  - destruct raw as [|a [|b [|c [|d [|x r]]]]]; try discriminate.
    intros H. injection H as Ha Hb Hc Hd.
    exists a, b, c, d. split; [reflexivity|].
    auto using lower_char_n, lower_char_o, lower_char_e.
  - intros (a & b & c & d & -> & Ha & Hb & Hc & Hd).
    destruct Ha as [-> | ->], Hb as [-> | ->], Hc as [-> | ->],
             Hd as [-> | ->]; reflexivity.
Qed.

Lemma parse_default_none (token : str) :
  fst (_parse_default_value_with_quote_info token) = None
  <-> none_spelling (Py.rstrip_char comma (Py.strip token)).
Proof.
  unfold _parse_default_value_with_quote_info. rewrite <- lower_none.
  destruct (Py.eqb (Py.lower (Py.rstrip_char comma (Py.strip token)))
                   (py "none")) eqn:E.
  - apply eqb_spec in E. now split.
  - apply eqb_false in E. simpl. split; [discriminate | contradiction].
Qed.

(** C4, as the program has it.  A default meta-line sets the default of
    the block to absent exactly when its value, trimmed of whitespace
    and trailing commas, spells None in any letter case; the bare None
    does, an empty quoted string and a quoted None are string defaults.
    The line leaves the requiredness of the block alone, and the option
    built from the block is required only when a required line said
    true. *)
Theorem default_none_any_case {L : PythonLib} :
  (forall token,
      fst (_parse_default_value_with_quote_info token) = None
      <-> none_spelling (Py.rstrip_char comma (Py.strip token)))
  /\ _parse_default_value_with_quote_info (py "None") = (None, false)
  /\ _parse_default_value_with_quote_info (py "''") = (Some [], true)
  /\ _parse_default_value_with_quote_info (py "'None'")
     = (Some (py "None"), true)
  /\ (forall setting_name g m iss,
         let m' := fst (apply_meta setting_name (default_line g) m iss) in
         meta_default m' = fst (_parse_default_value_with_quote_info g)
         /\ meta_required m' = meta_required m
         /\ snd (apply_meta setting_name (default_line g) m iss) = iss)
  /\ (forall setting_name m,
         default (make_option setting_name m) = meta_default m
         /\ required (make_option setting_name m)
            = match meta_required m with Some b => b | None => false end).
Proof.
  split; [exact parse_default_none|].
  split; [reflexivity|]. split; [reflexivity|]. split; [reflexivity|].
  split.
  - intros setting_name g m iss. unfold apply_meta, default_line. simpl.
    now destruct (_parse_default_value_with_quote_info g).
  - intros setting_name m. now split.
Qed.

(** C4, as the claim states it, fails: the lower-case token none also
    gives an absent default, for the function and for a template that is
    a DEBUG header followed by a default line with that value. *)
Lemma default_none_case_sensitive_counterexample :
  py "none" <> py "None"
  /\ _parse_default_value_with_quote_info (py "none") = (None, false)
  /\ map (fun e => (fst e, default (snd e), required (snd e)))
         (fst (@parse_env_example_schema sample_lib (py "env.example")
                 (Lines [header_line (py "DEBUG"); default_line (py "none")])))
     = [(py "DEBUG", None, false)].
Proof.
  split; [discriminate|]. split; reflexivity.
Qed.

(** ** Unquoted values of the .env file *)

Lemma find_Some (c : ascii) (s : str) : forall p,
  Py.find c s = Some p ->
  s = firstn p s ++ c :: skipn (S p) s /\ ~ In c (firstn p s).
Proof.
  induction s as [|a r IH]; intros p; simpl; [discriminate|].
  destruct (Ascii.eqb a c) eqn:E.
  - intros [= <-]. apply Ascii.eqb_eq in E. subst. simpl. auto.
  - destruct (Py.find c r) as [q|]; [|discriminate].
    intros [= <-]. destruct (IH q eq_refl) as [E1 E2]. simpl. split.
    + f_equal. exact E1.
    + intros [G|G]; [|contradiction].
      subst. now rewrite Ascii.eqb_refl in E.
Qed.

Lemma find_first (c : ascii) (before after : str) :
  ~ In c before ->
  Py.find c (before ++ c :: after) = Some (List.length before).
Proof.
  induction before as [|a r IH]; intros H; simpl.
  - now rewrite Ascii.eqb_refl.
  - destruct (Ascii.eqb a c) eqn:E.
    + apply Ascii.eqb_eq in E. subst. exfalso. apply H. now left.
    + rewrite IH; [reflexivity|]. intros G. apply H. now right.
Qed.

Lemma endswith_last (x : str) (w c : ascii) :
  Py.endswith (x ++ [w]) [c] = Ascii.eqb c w.
Proof.
  unfold Py.endswith. rewrite rev_app_distr. simpl.
  destruct (rev x); apply andb_true_r.
Qed.

Lemma space_tab_isspace (w : ascii) :
  Ascii.eqb space w || Ascii.eqb tab w = true -> Py.isspace w = true.
Proof.
  intros H. apply orb_prop in H as [H|H]; apply Ascii.eqb_eq in H; now subst.
Qed.

(** The value after the inline comment is cut. *)
Lemma unquoted_value_cut (before after : str) (w : ascii) :
  ~ In hash before -> w = space \/ w = tab ->
  unquoted_value (before ++ w :: hash :: after)
  = Py.strip_char dquote
      (Py.strip_char squote (Py.strip (before ++ [w]))).
Proof.
  intros H W. unfold unquoted_value.
  replace (before ++ w :: hash :: after)
    with ((before ++ [w]) ++ hash :: after) by now rewrite <- app_assoc.
  rewrite find_first.
  - rewrite firstn_app, Nat.sub_diag, firstn_all. simpl firstn.
    rewrite app_nil_r, !endswith_last.
    replace (Ascii.eqb space w || Ascii.eqb tab w) with true
      by now destruct W; subst.
    unfold Py.strip. now rewrite strip_by_idem.
  - intros G. apply in_app_or in G as [G|[G|[]]]; [contradiction|].
    destruct W; subst; discriminate G.
Qed.

Lemma unquoted_value_whole (s : str) :
  (forall a w b, s = a ++ w :: hash :: b -> Py.isspace w = false) ->
  unquoted_value s = Py.strip_char dquote (Py.strip_char squote (Py.strip s)).
Proof.
  intros H. unfold unquoted_value.
  destruct (Py.find hash s) as [p|] eqn:F; [|reflexivity].
  destruct (find_Some hash s p F) as [E _].
  destruct (rev (firstn p s)) as [|w x] eqn:R.
  - unfold Py.endswith. rewrite R. reflexivity.
  - apply (f_equal (@rev ascii)) in R. rewrite rev_involutive in R.
    simpl in R. rewrite R, !endswith_last.
    rewrite R, <- app_assoc in E. specialize (H _ _ _ E).
    destruct (Ascii.eqb space w || Ascii.eqb tab w) eqn:G; [|reflexivity].
    apply space_tab_isspace in G. congruence.
Qed.

(** C5, as the program has it.  For a value that does not start with a
    quote: when the first # follows a space or a tab the value is cut
    before it and trimmed, and when no # follows whitespace the value is
    kept whole; then all single quotes are taken off both ends, and
    after them all double quotes. *)
Theorem unquoted_value_strips_all_quotes (raw : str) :
  let s := Py.strip (Py.rstrip_char carriage_return
                       (Py.rstrip_char newline raw)) in
  match s with
  | c :: _ => c <> squote /\ c <> dquote
  | [] => True
  end ->
  forall v,
    (exists before w after,
        s = before ++ w :: hash :: after /\ ~ In hash before
        /\ (w = space \/ w = tab) /\ v = Py.strip (before ++ [w]))
    \/ ((forall a w b, s = a ++ w :: hash :: b -> Py.isspace w = false)
        /\ v = s) ->
    exists y,
      stripped_of (Py.is_char squote) v y
      /\ stripped_of (Py.is_char dquote) y (_parse_env_value raw).
Proof.
  intros s Hs v Hv.
  assert (E : _parse_env_value raw = unquoted_value s).
  { unfold _parse_env_value. fold s. destruct s as [|c r]; [reflexivity|].
    destruct Hs as [A B]. apply Ascii.eqb_neq in A, B. now rewrite A, B. }
  assert (V : unquoted_value s
              = Py.strip_char dquote (Py.strip_char squote v)).
  { destruct Hv as [(before & w & after & Es & Hb & Hw & ->) | [Hn ->]].
    - rewrite Es. now apply unquoted_value_cut.
    - rewrite (unquoted_value_whole s Hn). unfold s, Py.strip.
      now rewrite strip_by_idem. }
  exists (Py.strip_char squote v). rewrite E, V.
  split; apply strip_by_stripped.
Qed.

Lemma unquoted_value_strips_all_quotes_witness :
  exists y,
    stripped_of (Py.is_char squote) (py "a b''") y
    /\ stripped_of (Py.is_char dquote) y
         (_parse_env_value (py "a b'' # note")).
Proof.
  apply (unquoted_value_strips_all_quotes (py "a b'' # note")).
  - vm_compute. split; discriminate.
  - left. exists (py "a b''"), space, (py " note").
    split; [reflexivity|]. split; [|split; [now left | reflexivity]].
    simpl. intuition discriminate.
Defined.

(** C5, as the claim states it, fails: a value that ends in two single
    quotes loses both of them, not one. *)
Lemma unquoted_value_one_layer_counterexample :
  _parse_env_value (py "abc''") = py "abc"
  /\ _parse_env_value (py "abc''") <> py "abc'".
Proof. split; [reflexivity | discriminate]. Qed.

(** ** Further properties of the validation *)

Lemma errors_warnings_partition (l : list ValidationIssue) :
  List.length (filter is_error l) + List.length (filter is_warning l)
  = List.length l.
Proof.
  induction l as [|i l IH]; [reflexivity|].
  simpl. unfold is_error at 1, is_warning at 1.
  destruct (level i); simpl; lia.
Qed.

(** X1. The counts of a report tally its issues: every issue is counted
    once, as an error or as a warning, and the view without [verbose]
    holds exactly [errors] issues, all of them errors. *)
Theorem report_counts_tally {L : PythonLib}
    (schema : dict ConfigOption) (env : dict str) (strict civ : bool) :
  let r := validate_env schema env strict civ in
  errors r + warnings r = List.length (issues r)
  /\ List.length (_filter_issues (issues r) false) = errors r
  /\ Forall (fun i => level i = error) (_filter_issues (issues r) false)
  /\ (_filter_issues (issues r) false = [] <-> errors r = 0).
Proof.
  intros r. unfold r, validate_env, validate_env_run.
  destruct (schema_pass schema env civ) as [iss calls]. simpl.
  split; [apply errors_warnings_partition|]. split; [reflexivity|]. split.
  - apply Forall_forall. intros i Hi. apply filter_In in Hi as [_ Hi].
    unfold is_error in Hi. now destruct (level i).
  - split; [now intros -> | apply length_zero_iff_nil].
Qed.





(** X3. Every issue of a run is justified: an unknown issue by a key of
    the configuration outside the schema, in strict mode; any other by
    a schema entry that is absent (missing), whose value fails the type
    check (type_mismatch), or whose value passes the type check but not
    the allow-list (invalid_value). *)
Theorem every_issue_has_a_cause {L : PythonLib}
    (schema : dict ConfigOption) (env : dict str) (strict civ : bool)
    (i : ValidationIssue) :
  In i (issues (validate_env schema env strict civ)) ->
  (strict = true
   /\ exists k, In k (keys env) /\ ~ In k (keys schema) /\ i = unknown_issue k)
  \/ exists n o,
       In (n, o) schema
       /\ ((dict_get n env = None /\ i = missing_issue n o)
           \/ (exists raw e,
                  dict_get n env = Some raw
                  /\ _coerce_by_type raw (type_name o) = ValueError e
                  /\ i = type_mismatch_issue n o raw e)
           \/ (exists raw py_val canon,
                  dict_get n env = Some raw
                  /\ _coerce_by_type raw (type_name o) = Return (py_val, canon)
                  /\ value_ok o raw civ = false
                  /\ i = invalid_value_issue n o raw)).
Proof.
  rewrite validate_env_issues. intros H. apply in_app_or in H as [H|H].
  - left. destruct strict; [|contradiction]. split; [reflexivity|].
    destruct (unknown_pass_setting env schema i H) as (k & -> & A & B).
    now exists k.
  - right. apply in_flat_map in H as ([n o] & He & H).
    exists n, o. split; [exact He|].
    unfold entry_issues, check_option in H. simpl in H.
    destruct (dict_get n env) as [raw|].
    + destruct (_coerce_by_type raw (type_name o)) as [[pv canon]|e] eqn:C.
      * right. right. exists raw, pv, canon. unfold value_ok. rewrite C.
        destruct (Py.truthy (or_empty (valid_literals o))
                  || Py.truthy (or_empty (_compiled_regex o)));
          [|contradiction].
        destruct (allowed_check o raw pv canon civ) as [[] calls];
          [contradiction|].
        destruct H as [<-|[]]. auto.
      * right. left. exists raw, e. destruct H as [<-|[]]. auto.
    + left. destruct H as [<-|[]]. auto.
Qed.

Lemma every_issue_has_a_cause_witness :
  (true = true
   /\ exists k, In k (keys env_foo) /\ ~ In k (keys sample_schema)
                /\ unknown_issue (py "FOO") = unknown_issue k)
  \/ exists (n : str) (o : @ConfigOption sample_lib),
       In (n, o) sample_schema
       /\ ((dict_get n env_foo = None
            /\ unknown_issue (py "FOO") = missing_issue n o)
           \/ (exists raw e,
                  dict_get n env_foo = Some raw
                  /\ @_coerce_by_type sample_lib raw (type_name o)
                     = ValueError e
                  /\ unknown_issue (py "FOO") = type_mismatch_issue n o raw e)
           \/ (exists raw py_val canon,
                  dict_get n env_foo = Some raw
                  /\ @_coerce_by_type sample_lib raw (type_name o)
                     = Return (py_val, canon)
                  /\ value_ok o raw true = false
                  /\ unknown_issue (py "FOO") = invalid_value_issue n o raw)).
Proof.
  apply (@every_issue_has_a_cause sample_lib sample_schema env_foo true true
           (unknown_issue (py "FOO"))).
  vm_compute. now left.
Defined.

(** *** Case-sensitive and case-insensitive literals *)

Lemma literal_compare_case {L : PythonLib} (o : ConfigOption) (py_val : PyVal)
    (canon_str : str) (literals : list str) :
  literal_compare o py_val canon_str false literals = true ->
  literal_compare o py_val canon_str true literals = true.
Proof.
  unfold literal_compare. destruct (is_typed (type_name o)); [trivial|].
  rewrite !mem_In. intros H. now apply in_map.
Qed.

Lemma allowed_check_case {L : PythonLib} (o : ConfigOption) (raw : str)
    (py_val : PyVal) (canon_str : str) :
  fst (allowed_check o raw py_val canon_str false) = true ->
  fst (allowed_check o raw py_val canon_str true) = true.
Proof.
  unfold allowed_check.
  destruct (Py.truthy (or_empty (valid_literals o))); simpl.
  - destruct (literal_compare o py_val canon_str false _) eqn:A.
    + rewrite (literal_compare_case _ _ _ _ A). reflexivity.
    + simpl. destruct (literal_compare o py_val canon_str true _); [reflexivity|].
      trivial.
  - trivial.
Qed.

Lemma entry_issues_case {L : PythonLib} (env : dict str)
    (entry : str * ConfigOption) :
  entry_issues env true entry = []
  \/ entry_issues env true entry = entry_issues env false entry.
Proof.
  destruct entry as [n o]. unfold entry_issues, check_option. simpl.
  destruct (dict_get n env) as [raw|]; [|now right].
  destruct (_coerce_by_type raw (type_name o)) as [[pv canon]|e]; [|now right].
  destruct (Py.truthy (or_empty (valid_literals o))
            || Py.truthy (or_empty (_compiled_regex o))); [|now right].
  pose proof (allowed_check_case o raw pv canon) as K.
  destruct (allowed_check o raw pv canon false) as [[] c1];
    destruct (allowed_check o raw pv canon true) as [[] c2]; simpl in *; auto.
  discriminate (K eq_refl).
Qed.

(** X4. Comparing literals without regard to case never rejects more:
    the issues of the case-insensitive run are among those of the
    case-sensitive run on the same input, and it counts no more errors;
    a value accepted under case-sensitive comparison stays accepted. *)
Theorem case_insensitive_accepts_more {L : PythonLib}
    (schema : dict ConfigOption) (env : dict str) (strict : bool) :
  (forall i, In i (issues (validate_env schema env strict true)) ->
             In i (issues (validate_env schema env strict false)))
  /\ errors (validate_env schema env strict true)
     <= errors (validate_env schema env strict false)
  /\ (forall o raw, value_ok o raw false = true -> value_ok o raw true = true).
Proof.
  split; [|split].
  - intros i. rewrite !validate_env_issues, !in_app_iff.
    intros [H|H]; [now left|]. right.
    apply in_flat_map in H as (entry & He & H). apply in_flat_map.
    exists entry. split; [exact He|].
    destruct (entry_issues_case env entry) as [E|E]; rewrite E in H;
      [contradiction | exact H].
  - assert (E : forall civ, errors (validate_env schema env strict civ)
              = List.length (filter is_error
                               (issues (validate_env schema env strict civ)))).
    { intros civ. unfold validate_env, validate_env_run.
      now destruct (schema_pass schema env civ). }
    rewrite !E, !validate_env_issues, !filter_app, !length_app.
    apply Nat.add_le_mono_l. clear E.
    induction schema as [|entry r IH]; [apply le_n|].
    simpl flat_map. rewrite !filter_app, !length_app.
    apply Nat.add_le_mono; [|exact IH].
    destruct (entry_issues_case env entry) as [-> | ->]; simpl; lia.
  - intros o raw. unfold value_ok.
    destruct (_coerce_by_type raw (type_name o)) as [[pv canon]|e]; [|trivial].
    destruct (negb _); simpl; [trivial|]. apply allowed_check_case.
Qed.

(** ** Canonical forms of the coercions *)

Lemma digits_fold_pos (d : Decimal.uint) : forall p : positive,
  fold_left (fun acc c => (10 * acc + digit_val c)%Z)
            (py (NilEmpty.string_of_uint d)) (Zpos p)
  = Zpos (Pos.of_uint_acc d p).
Proof.
  induction d; intros p; [reflexivity|..];
    (cbn [NilEmpty.string_of_uint py list_ascii_of_string fold_left
          Pos.of_uint_acc];
     fold (py (NilEmpty.string_of_uint d));
     rewrite <- IHd; f_equal; vm_compute digit_val; lia).
Qed.

Lemma digits_fold_zero (d : Decimal.uint) :
  int_of_digits (py (NilEmpty.string_of_uint d)) = Z.of_uint d.
Proof.
  unfold int_of_digits, Z.of_uint.
  induction d; [reflexivity|..];
    cbn [NilEmpty.string_of_uint py list_ascii_of_string fold_left Pos.of_uint];
    fold (py (NilEmpty.string_of_uint d));
    [exact IHd | apply (digits_fold_pos d)..].
Qed.

Lemma digits_all_digits (d : Decimal.uint) :
  forallb is_digit (py (NilEmpty.string_of_uint d)) = true.
Proof.
  induction d; [reflexivity|..];
    cbn [NilEmpty.string_of_uint py list_ascii_of_string forallb];
    fold (py (NilEmpty.string_of_uint d)); rewrite IHd; reflexivity.
Qed.

Lemma nilzero_digits (d : Decimal.uint) :
  all_digits (py (NilZero.string_of_uint d)) = true
  /\ int_of_digits (py (NilZero.string_of_uint d)) = Z.of_uint d.
Proof.
  destruct d; [split; reflexivity|..];
    (split;
     [ unfold all_digits; rewrite andb_true_iff; split;
       [reflexivity | apply (digits_all_digits (_ d))]
     | apply (digits_fold_zero (_ d)) ]).
Qed.

Lemma is_digit_no_sign (c : ascii) :
  is_digit c = true ->
  Ascii.eqb c "+" = false /\ Ascii.eqb c "-" = false
  /\ Py.isspace c = false.
Proof.
  destruct c as [[] [] [] [] [] [] [] []]; vm_compute; intros H;
    try discriminate H; repeat split.
Qed.

Lemma int_of_str_digits (s : str) :
  all_digits s = true -> int_of_str s = Some (int_of_digits s).
Proof.
  intros H. unfold int_of_str. destruct s as [|c r]; [discriminate H|].
  pose proof H as H'. unfold all_digits in H'. simpl in H'.
  apply andb_prop in H' as [Hc _].
  destruct (is_digit_no_sign c Hc) as (A & B & _).
  now rewrite A, B, H.
Qed.

(** Reading the decimal text of an integer gives the integer back. *)
Lemma int_of_str_of_Z (i : Z) : int_of_str (str_of_Z i) = Some i.
Proof.
  unfold str_of_Z. rewrite <- (DecimalZ.of_to i) at 2.
  destruct (Z.to_int i) as [d|d]; simpl NilZero.string_of_int.
  - destruct (nilzero_digits d) as [A B].
    rewrite (int_of_str_digits _ A), B. reflexivity.
  - destruct (nilzero_digits d) as [A B].
    cbn [py list_ascii_of_string]. fold (py (NilZero.string_of_uint d)).
    unfold int_of_str.
    change (Ascii.eqb "-" "+") with false.
    change (Ascii.eqb "-" "-") with true.
    cbv iota. rewrite A, B. reflexivity.
Qed.

Lemma strip_no_space (s : str) :
  forallb (fun c => negb (Py.isspace c)) s = true -> Py.strip s = s.
Proof.
  intros H. apply strip_by_fixed. split.
  - destruct s as [|c r]; [exact I|]. simpl in H.
    apply andb_prop in H as [H _]. now apply negb_true_iff.
  - rewrite <- forallb_rev in H. destruct (rev s) as [|c r]; [exact I|].
    simpl in H. apply andb_prop in H as [H _]. now apply negb_true_iff.
Qed.

Lemma digits_no_space (s : str) :
  forallb is_digit s = true -> forallb (fun c => negb (Py.isspace c)) s = true.
Proof.
  induction s as [|c r IH]; [reflexivity|]. simpl. intros H.
  apply andb_prop in H as [Hc Hr].
  destruct (is_digit_no_sign c Hc) as (_ & _ & ->). now rewrite IH.
Qed.

Lemma str_of_Z_no_space (i : Z) : Py.strip (str_of_Z i) = str_of_Z i.
Proof.
  apply strip_no_space. unfold str_of_Z.
  destruct (Z.to_int i) as [d|d]; simpl NilZero.string_of_int.
  - apply digits_no_space. destruct (nilzero_digits d) as [A _].
    unfold all_digits in A. now apply andb_prop in A as [_ A].
  - cbn [py list_ascii_of_string forallb].
    fold (py (NilZero.string_of_uint d)).
    change (negb (Py.isspace "-")) with true.
    apply digits_no_space. destruct (nilzero_digits d) as [A _].
    unfold all_digits in A. now apply andb_prop in A as [_ A].
Qed.

Lemma strip_idem (s : str) : Py.strip (Py.strip s) = Py.strip s.
Proof. apply strip_by_idem. Qed.

(** X5. The canonical form is a fixed point of the coercion: for every
    type but float (whose text is the library's), coercing the canonical
    string of a value that coerced gives the same typed value and the
    same canonical string. *)
Theorem canonical_form_is_fixed_point {L : PythonLib}
    (value type_name : str) (py_val : PyVal) (canon : str) :
  type_name <> py "float" ->
  _coerce_by_type value type_name = Return (py_val, canon) ->
  _coerce_by_type canon type_name = Return (py_val, canon).
Proof.
  intros NF. unfold _coerce_by_type.
  destruct (Py.eqb type_name (py "string")); [now intros [= <- <-]|].
  destruct (Py.eqb type_name (py "bool")).
  { unfold _coerce_bool.
    destruct (Py.mem _ _BOOL_TRUE); [now intros [= <- <-]|].
    destruct (Py.mem _ _BOOL_FALSE); [now intros [= <- <-]|discriminate]. }
  destruct (Py.eqb type_name (py "int")).
  { unfold _coerce_int.
    destruct (int_of_str (Py.strip value)) as [i|]; [|discriminate].
    intros [= <- <-]. now rewrite str_of_Z_no_space, int_of_str_of_Z. }
  destruct (Py.eqb type_name (py "float")) eqn:F;
    [apply eqb_spec in F; contradiction|].
  destruct (Py.eqb type_name (py "url")); [|now intros [= <- <-]].
  unfold _coerce_url.
  destruct (urlparse (Py.strip value)) as [[scheme netloc]|e] eqn:U;
    [|discriminate].
  destruct (negb (Py.truthy scheme) || negb (Py.truthy netloc)) eqn:T;
    [discriminate|].
  intros [= <- <-]. now rewrite strip_idem, U, T.
Qed.

Lemma canonical_form_is_fixed_point_witness :
  @_coerce_by_type sample_lib (py " +0080 ") (py "int")
  = Return (VInt 80, py "80")
  /\ @_coerce_by_type sample_lib (py "80") (py "int")
     = Return (VInt 80, py "80").
Proof.
  split; [reflexivity|].
  apply (@canonical_form_is_fixed_point sample_lib (py " +0080 ") (py "int")
           (VInt 80) (py "80")); [discriminate | reflexivity].
Defined.

Lemma coerce_unchecked_type {L : PythonLib} (value ty : str) :
  ~ In ty [py "bool"; py "int"; py "float"; py "url"] ->
  _coerce_by_type value ty = Return (VStr value, value).
Proof.
  intros H. unfold _coerce_by_type.
  destruct (Py.eqb ty (py "string")); [reflexivity|].
  destruct (Py.eqb ty (py "bool")) eqn:E2;
    [apply eqb_spec in E2; exfalso; apply H; simpl; auto|].
  destruct (Py.eqb ty (py "int")) eqn:E3;
    [apply eqb_spec in E3; exfalso; apply H; simpl; auto|].
  destruct (Py.eqb ty (py "float")) eqn:E4;
    [apply eqb_spec in E4; exfalso; apply H; simpl; auto|].
  destruct (Py.eqb ty (py "url")) eqn:E5;
    [apply eqb_spec in E5; exfalso; apply H; simpl; auto|].
  reflexivity.
Qed.

(** X6. The type string, and any type name that is none of bool, int,
    float and url, accepts every value as it is; so a type_mismatch
    issue always belongs to a schema entry of type bool, int, float or
    url. *)
Theorem type_mismatch_only_for_checked_types {L : PythonLib}
    (schema : dict ConfigOption) (env : dict str) (strict civ : bool) :
  (forall value ty,
      ~ In ty [py "bool"; py "int"; py "float"; py "url"] ->
      _coerce_by_type value ty = Return (VStr value, value))
  /\ (forall i,
         In i (issues (validate_env schema env strict civ)) ->
         code i = type_mismatch ->
         exists n o, In (n, o) schema /\ setting i = Some n
                     /\ In (type_name o)
                           [py "bool"; py "int"; py "float"; py "url"]).
Proof.
  split; [exact coerce_unchecked_type|].
  intros i Hi Hc. rewrite validate_env_issues in Hi.
  apply in_app_or in Hi as [Hi|Hi].
  - destruct strict; [|contradiction].
    destruct (unknown_pass_setting env schema i Hi) as (k & -> & _).
    discriminate Hc.
  - apply in_flat_map in Hi as ([n o] & He & Hi).
    exists n, o. split; [exact He|].
    split; [now apply (check_option_setting env civ n o)|].
    destruct (in_dec (list_eq_dec ascii_dec) (type_name o)
                [py "bool"; py "int"; py "float"; py "url"]) as [I|N];
      [exact I|].
    exfalso. unfold entry_issues, check_option in Hi. simpl in Hi.
    destruct (dict_get n env) as [raw|].
    + rewrite (coerce_unchecked_type raw _ N) in Hi.
      destruct (Py.truthy (or_empty (valid_literals o))
                || Py.truthy (or_empty (_compiled_regex o))); [|contradiction].
      destruct (allowed_check o raw (VStr raw) raw civ) as [[] calls];
        [contradiction|].
      destruct Hi as [<-|[]]. discriminate Hc.
    + destruct Hi as [<-|[]]. unfold missing_issue in Hc.
      destruct (required o); discriminate Hc.
Qed.

(** ** Quotes *)

Lemma last_char_app (x : str) (c : ascii) : Py.last_char (x ++ [c]) = Some c.
Proof. unfold Py.last_char. now rewrite rev_app_distr. Qed.

Lemma quoted_edge_ok (q : ascii) (body : str) :
  Py.isspace q = false -> edge_ok Py.isspace (q :: body ++ [q]).
Proof.
  intros H. split; [exact H|].
  change (q :: body ++ [q]) with ((q :: body) ++ [q]).
  now rewrite rev_app_distr.
Qed.

Lemma quote_not_space (q : ascii) :
  q = squote \/ q = dquote -> Py.isspace q = false.
Proof. now intros [-> | ->]. Qed.

(** X7. [_strip_quotes] undoes quoting: a text put between two single or
    two double quotes, with any whitespace around, comes back as it
    was; and whatever the token, the result is the trimmed token or the
    trimmed token with one pair of matching quotes taken off. *)
Theorem strip_quotes_round_trip :
  (forall q body pre post,
      q = squote \/ q = dquote ->
      forallb Py.isspace pre = true -> forallb Py.isspace post = true ->
      _strip_quotes (pre ++ (q :: body ++ [q]) ++ post) = body)
  /\ (forall token,
         _strip_quotes token = Py.strip token
         \/ exists q, (q = squote \/ q = dquote)
                      /\ Py.strip token = q :: _strip_quotes token ++ [q]).
Proof.
  split.
  - intros q body pre post Hq Hpre Hpost. unfold _strip_quotes, Py.strip.
    rewrite strip_by_pad by assumption.
    rewrite (strip_by_fixed _ _ (quoted_edge_ok q body (quote_not_space q Hq))).
    change (Py.last_char (q :: body ++ [q]))
      with (Py.last_char ((q :: body) ++ [q])).
    rewrite last_char_app, Ascii.eqb_refl.
    replace (Ascii.eqb q squote || Ascii.eqb q dquote) with true
      by now destruct Hq; subst.
    replace (2 <=? List.length (q :: body ++ [q])) with true.
    + simpl. apply removelast_last.
    + simpl. rewrite length_app, Nat.add_comm. reflexivity.
  - intros token. unfold _strip_quotes.
    destruct (Py.strip token) as [|c0 rest] eqn:E; [now left|].
    destruct (Py.last_char (c0 :: rest)) as [cl|] eqn:El; [|now left].
    destruct ((2 <=? List.length (c0 :: rest)) && Ascii.eqb c0 cl
              && (Ascii.eqb c0 squote || Ascii.eqb c0 dquote)) eqn:C;
      [|now left].
    right. apply andb_prop in C as [C Cq]. apply andb_prop in C as [Cl Ce].
    apply Ascii.eqb_eq in Ce. subst cl. exists c0. split.
    + apply orb_prop in Cq as [Cq|Cq]; apply Ascii.eqb_eq in Cq; auto.
    + f_equal. destruct (exists_last (l := rest)) as (rest' & r0 & ->);
        [intros ->; discriminate Cl|].
      rewrite removelast_last.
      unfold Py.last_char in El.
      change (c0 :: rest' ++ [r0]) with ((c0 :: rest') ++ [r0]) in El.
      rewrite rev_app_distr in El. simpl in El. now injection El as ->.
Qed.

Lemma strip_quotes_round_trip_witness :
  _strip_quotes (py "  " ++ (squote :: py "a b, c" ++ [squote]) ++ py " ")
  = py "a b, c".
Proof.
  apply (proj1 strip_quotes_round_trip squote (py "a b, c") (py "  ") (py " "));
    [now left | reflexivity | reflexivity].
Defined.

(** ** Quoted values of the .env file and the scaffold *)

Lemma lstrip_by_app_stop (p : ascii -> bool) (c : ascii) (a b : str) :
  p c = false -> Py.lstrip_by p (a ++ c :: b) = Py.lstrip_by p a ++ c :: b.
Proof.
  intros H. induction a as [|x a IH]; simpl; [now rewrite H|].
  destruct (p x); [exact IH | reflexivity].
Qed.

Lemma rstrip_by_keep (p : ascii -> bool) (c : ascii) (x r : str) :
  p c = false -> Py.rstrip_by p (x ++ c :: r) = x ++ c :: Py.rstrip_by p r.
Proof.
  intros H. unfold Py.rstrip_by. rewrite rev_app_distr. simpl.
  rewrite <- app_assoc. simpl. rewrite lstrip_by_app_stop by assumption.
  rewrite rev_app_distr. simpl. rewrite rev_involutive, <- app_assoc.
  reflexivity.
Qed.

Lemma rstrip_by_last_kept (p : ascii -> bool) (v : str) :
  match rev v with [] => True | c :: _ => p c = false end ->
  Py.rstrip_by p v = v.
Proof.
  intros H. unfold Py.rstrip_by. destruct (rev v) as [|c r] eqn:E.
  - apply (f_equal (@rev ascii)) in E. rewrite rev_involutive in E.
    now subst.
  - rewrite lstrip_by_head by assumption. rewrite <- E. apply rev_involutive.
Qed.

Lemma replace_char_absent (c : ascii) (rep v : str) :
  ~ In c v -> replace_char c rep v = v.
Proof.
  induction v as [|a v IH]; intros H; [reflexivity|].
  simpl. destruct (Ascii.eqb a c) eqn:E.
  - apply Ascii.eqb_eq in E. subst. exfalso. apply H. now left.
  - simpl. f_equal. apply IH. intros G. apply H. now right.
Qed.

(** The loop of the quoted case walks over an escaped text without
    ending. *)
Lemma quoted_loop_escaped (q : ascii) (v : str) :
  q <> backslash -> ~ In backslash v ->
  forall tail acc whole,
    quoted_loop q (replace_char q [backslash; q] v ++ tail) false acc whole
    = quoted_loop q tail false (acc ++ replace_char q [backslash; q] v) whole.
Proof.
  intros Hq. induction v as [|a v IH]; intros Hb tail acc whole.
  - simpl. now rewrite app_nil_r.
  - assert (Ha : Ascii.eqb a backslash = false).
    { apply Ascii.eqb_neq. intros ->. apply Hb. now left. }
    assert (Hv : ~ In backslash v) by (intros G; apply Hb; now right).
    assert (Hq' : Ascii.eqb backslash q = false).
    { apply Ascii.eqb_neq. congruence. }
    simpl replace_char. destruct (Ascii.eqb a q) eqn:E.
    + apply Ascii.eqb_eq in E. subst a.
      cbn [app quoted_loop]. rewrite Hq', Ascii.eqb_refl. simpl.
      rewrite Ha. simpl. fold (replace_char q [backslash; q] v).
      rewrite (IH Hv). now rewrite <- !app_assoc.
    + cbn [app quoted_loop]. rewrite E, Ha. simpl.
      fold (replace_char q [backslash; q] v).
      rewrite (IH Hv). now rewrite <- !app_assoc.
Qed.

Lemma quote_facts (q : ascii) :
  q = squote \/ q = dquote ->
  q <> backslash /\ Py.isspace q = false
  /\ Py.is_char newline q = false /\ Py.is_char carriage_return q = false
  /\ Ascii.eqb q squote || Ascii.eqb q dquote = true.
Proof. intros [-> | ->]; repeat split; discriminate. Qed.

Lemma quoted_value_read_back_aux (q : ascii) (v rest : str) :
  q = squote \/ q = dquote -> ~ In backslash v ->
  _parse_env_value (q :: replace_char q [backslash; q] v ++ q :: rest)
  = replace_char q [backslash; q] v.
Proof.
  intros Hq Hb.
  destruct (quote_facts q Hq) as (Nb & Ns & Nn & Nr & Q).
  set (e := replace_char q [backslash; q] v).
  unfold _parse_env_value, Py.rstrip_char, Py.strip, Py.strip_by.
  change (q :: e ++ q :: rest) with ((q :: e) ++ q :: rest).
  rewrite !rstrip_by_keep by assumption.
  simpl app. rewrite lstrip_by_head by assumption.
  change (q :: e ++ q :: ?r) with ((q :: e) ++ q :: r).
  rewrite rstrip_by_keep by assumption.
  rewrite <- app_comm_cons. rewrite Q. unfold e.
  rewrite quoted_loop_escaped by assumption.
  simpl. now rewrite Ascii.eqb_refl.
Qed.



Lemma find_None (c : ascii) (s : str) : ~ In c s -> Py.find c s = None.
Proof.
  induction s as [|a r IH]; intros H; [reflexivity|].
  simpl. destruct (Ascii.eqb a c) eqn:E.
  - apply Ascii.eqb_eq in E. subst. exfalso. apply H. now left.
  - rewrite IH; [reflexivity|]. intros G. apply H. now right.
Qed.

Lemma absent_edge_ok (c : ascii) (v : str) :
  ~ In c v -> edge_ok (Py.is_char c) v.
Proof.
  intros H. 
  assert (G : forall a, In a v -> Py.is_char c a = false).
  { intros a Ha. apply Ascii.eqb_neq. intros ->. contradiction. }
  split.
  - destruct v as [|a r]; [exact I|]. apply G. now left.
  - destruct (rev v) as [|a r] eqn:E; [exact I|].
    apply G. apply in_rev. rewrite E. now left.
Qed.

Lemma double_quoted_read_back (v : str) :
  ~ In backslash v ->
  _parse_env_value (double_quoted v)
  = replace_char dquote [backslash; dquote] v.
Proof.
  intros H. unfold double_quoted.
  change ([dquote] ++ replace_char dquote [backslash; dquote] v ++ [dquote])
    with (dquote :: replace_char dquote [backslash; dquote] v ++ dquote :: []).
  apply quoted_value_read_back_aux; [now right | exact H].
Qed.

Lemma not_special (v : str) :
  existsb is_special v = false ->
  ~ In hash v.
Proof.
  intros H G. 
  assert (K : existsb is_special v = true).
  { apply existsb_exists. exists hash. split; [exact G | reflexivity]. }
  congruence.
Qed.

Lemma unquoted_read_back (v : str) :
  _needs_quotes v = false -> ~ In dquote v ->
  edge_ok Py.isspace v -> edge_ok (Py.is_char squote) v ->
  _parse_env_value v = v.
Proof.
  intros N D [Sh Sl] [Qh Ql]. unfold _needs_quotes in N.
  destruct (Py.eqb v []) eqn:E; [discriminate|].
  destruct (existsb is_special v) eqn:X; [discriminate|].
  assert (K : forall c0, Py.isspace c0 = true ->
                         Py.rstrip_by (Py.is_char c0) v = v).
  { intros c0 H0. apply rstrip_by_last_kept.
    destruct (rev v) as [|c r]; [exact I|].
    apply Ascii.eqb_neq. intros <-. congruence. }
  unfold _parse_env_value, Py.rstrip_char.
  rewrite (K newline eq_refl), (K carriage_return eq_refl).
  assert (St : Py.strip v = v) by (apply strip_by_fixed; now split).
  rewrite St. destruct v as [|c0 r]; [reflexivity|].
  assert (A : Ascii.eqb c0 squote = false).
  { rewrite Ascii.eqb_sym. exact Qh. }
  assert (B : Ascii.eqb c0 dquote = false).
  { apply Ascii.eqb_neq. intros ->. apply D. now left. }
  rewrite A, B. simpl orb. cbv iota.
  unfold unquoted_value. rewrite (find_None hash _ (not_special _ X)), St.
  unfold Py.strip_char.
  rewrite (strip_by_fixed (Py.is_char squote) (c0 :: r)) by now split.
  apply strip_by_fixed. now apply absent_edge_ok.
Qed.

(** X9. A default written by the scaffold is read back by the loader:
    the double-quoted form of a value without backslashes gives the
    value with each double quote still escaped, hence the value itself
    when it holds no double quote; and a value without backslashes and
    double quotes that neither starts nor ends with whitespace or a
    single quote is read back unchanged, whichever way the scaffold
    chose to quote it. *)
Theorem scaffold_value_read_back :
  (forall v,
      ~ In backslash v ->
      _parse_env_value (double_quoted v)
      = replace_char dquote [backslash; dquote] v)
  /\ (forall v type_name default_was_quoted preserve_default_quotes
             quote_strings,
         ~ In backslash v -> ~ In dquote v ->
         edge_ok Py.isspace v -> edge_ok (Py.is_char squote) v ->
         _parse_env_value
           (_quote_for_scaffold v type_name default_was_quoted
              preserve_default_quotes quote_strings) = v).
Proof.
  split; [exact double_quoted_read_back|].
  intros v ty dwq pres qs Hb Hd Hs Hq.
  assert (Q : _parse_env_value (double_quoted v) = v).
  { rewrite double_quoted_read_back by assumption.
    now apply replace_char_absent. }
  unfold _quote_for_scaffold, _quote.
  destruct (pres && dwq); [exact Q|].
  destruct (qs && Py.eqb ty (py "string")); [exact Q|].
  destruct (_needs_quotes v) eqn:N; [exact Q|].
  now apply unquoted_read_back.
Qed.

Lemma scaffold_value_read_back_witness :
  _parse_env_value (_quote_for_scaffold (py "sk_live 42") (py "string")
                      false true false) = py "sk_live 42"
  /\ _needs_quotes (py "sk_live 42") = true.
Proof.
  split; [|reflexivity].
  apply (proj2 scaffold_value_read_back (py "sk_live 42") (py "string")
           false true false).
  - simpl. intuition discriminate.
  - simpl. intuition discriminate.
  - split; reflexivity.
  - split; reflexivity.
Defined.

(** ** Dictionaries built by assignment *)

Lemma keys_dict_set {V} (k : str) (v : V) (d : dict V) :
  keys (dict_set k v d) = if dict_mem k d then keys d else keys d ++ [k].
Proof.
  unfold dict_mem, keys, Py.mem.
  induction d as [|[k' v'] r IH]; [reflexivity|].
  simpl. destruct (Py.eqb k k'); simpl; [reflexivity|].
  rewrite IH. now destruct (existsb (Py.eqb k) (map fst r)).
Qed.

Lemma dict_set_wf {V} (k : str) (v : V) (d : dict V) :
  dict_wf d -> dict_wf (dict_set k v d).
Proof.
  unfold dict_wf. intros W. rewrite keys_dict_set.
  destruct (dict_mem k d) eqn:M; [exact W|].
  apply dict_mem_false in M.
  apply (Permutation_NoDup (l := k :: keys d)).
  - apply Permutation_cons_append.
  - now constructor.
Qed.

Lemma dict_get_set_same {V} (k : str) (v : V) (d : dict V) :
  dict_get k (dict_set k v d) = Some v.
Proof.
  induction d as [|[k' v'] r IH]; simpl; [now rewrite eqb_refl|].
  destruct (Py.eqb k k') eqn:E; simpl; rewrite E; [reflexivity | exact IH].
Qed.

Lemma dict_get_set_other {V} (k k' : str) (v : V) (d : dict V) :
  k <> k' -> dict_get k (dict_set k' v d) = dict_get k d.
Proof.
  intros N. induction d as [|[k0 v0] r IH]; simpl.
  - now rewrite (proj2 (eqb_false k k') N).
  - destruct (Py.eqb k' k0) eqn:E; simpl.
    + apply eqb_spec in E. subst k0.
      now rewrite (proj2 (eqb_false k k') N).
    + destruct (Py.eqb k k0); [reflexivity | exact IH].
Qed.

Lemma dict_set_not_nil {V} (k : str) (v : V) (d : dict V) :
  dict_set k v d <> [].
Proof.
  destruct d as [|[k' v'] r]; simpl; [discriminate|].
  destruct (Py.eqb k k'); discriminate.
Qed.

(** ** The loader *)

Lemma load_loop_invariant (path : str) (lines : list env_line) :
  forall ln env iss,
    dict_wf env ->
    Forall (fun i => level i = warning /\ code i = parse_error
                     /\ setting i = None) iss ->
    dict_wf (fst (load_loop path ln lines env iss))
    /\ Forall (fun i => level i = warning /\ code i = parse_error
                        /\ setting i = None)
              (snd (load_loop path ln lines env iss)).
Proof.
  induction lines as [|l r IH]; intros ln env iss W F; [now split|].
  simpl.
  destruct (negb (Py.truthy (Py.strip (raw_line l)))
            || Py.startswith (Py.strip (raw_line l)) [hash]);
    [now apply IH|].
  destruct (env_match l) as [[key g2]|].
  - apply IH; [now apply dict_set_wf | exact F].
  - apply IH; [exact W|]. apply Forall_app. split; [exact F|].
    now repeat constructor.
Qed.

Lemma load_loop_app (path : str) (a b : list env_line) :
  forall ln env iss,
    load_loop path ln (a ++ b) env iss
    = load_loop path (ln + List.length a) b
        (fst (load_loop path ln a env iss))
        (snd (load_loop path ln a env iss)).
Proof.
  induction a as [|l r IH]; intros ln env iss.
  - simpl. now rewrite Nat.add_0_r.
  - simpl.
    replace (ln + S (List.length r)) with (S ln + List.length r) by lia.
    destruct (negb (Py.truthy (Py.strip (raw_line l)))
              || Py.startswith (Py.strip (raw_line l)) [hash]);
      [apply IH|].
    destruct (env_match l) as [[key g2]|]; apply IH.
Qed.

Lemma load_loop_keeps (path : str) (key : str) (lines : list env_line) :
  (forall l g, In l lines -> ~ assigns l key g) ->
  forall ln env iss,
    dict_get key (fst (load_loop path ln lines env iss)) = dict_get key env.
Proof.
  induction lines as [|l r IH]; intros H ln env iss; [reflexivity|].
  assert (Hr : forall l' g, In l' r -> ~ assigns l' key g).
  { intros l' g Hl. apply H. now right. }
  simpl.
  destruct (negb (Py.truthy (Py.strip (raw_line l)))
            || Py.startswith (Py.strip (raw_line l)) [hash]) eqn:C;
    [now apply IH|].
  destruct (env_match l) as [[k g2]|] eqn:M; [|now apply IH].
  rewrite (IH Hr). apply dict_get_set_other. intros <-.
  apply (H l g2 (or_introl eq_refl)).
  apply orb_false_elim in C as [C1 C2]. apply negb_false_iff in C1.
  now repeat split.
Qed.


(** X11. The last assignment of a key wins: the value of a key after
    loading is the parsed value of the last line that assigns it,
    whatever came before. *)
Theorem load_dotenv_last_assignment_wins (path : str)
    (before after : list env_line) (l : env_line) (key g2 : str) :
  assigns l key g2 ->
  (forall l' g, In l' after -> ~ assigns l' key g) ->
  dict_get key (fst (load_dotenv path (Lines (before ++ l :: after))))
  = Some (_parse_env_value (Py.strip g2)).
Proof.
  intros (A1 & A2 & A3) H. simpl. rewrite load_loop_app. simpl.
  rewrite A1, A2, A3. simpl. rewrite (load_loop_keeps path key after H).
  apply dict_get_set_same.
Qed.

Lemma load_dotenv_last_assignment_wins_witness :
  dict_get (py "PORT")
    (fst (load_dotenv (py ".env")
            (Lines ([mkEnvLine (py "PORT=80") (Some (py "PORT", py "80"))]
                    ++ mkEnvLine (py "PORT = '443' # tls")
                         (Some (py "PORT", py "'443' # tls"))
                    :: [mkEnvLine (py "# PORT=1") None;
                        mkEnvLine (py "HOST=a") (Some (py "HOST", py "a"))]))))
  = Some (py "443").
Proof.
  apply (load_dotenv_last_assignment_wins (py ".env")
           [mkEnvLine (py "PORT=80") (Some (py "PORT", py "80"))]
           [mkEnvLine (py "# PORT=1") None;
            mkEnvLine (py "HOST=a") (Some (py "HOST", py "a"))]
           (mkEnvLine (py "PORT = '443' # tls")
              (Some (py "PORT", py "'443' # tls")))
           (py "PORT") (py "'443' # tls")).
  - repeat split; reflexivity.
  - intros l' g [<-|[<-|[]]] (A1 & A2 & A3); discriminate.
Defined.

(** ** The schema extractor *)

Lemma or_None_not_empty {A} (l : list A) : or_None l <> Some [].
Proof. destruct l; discriminate. Qed.

Lemma parse_type_value_known (token t : str) :
  _parse_type_value token = Return t -> In t type_names.
Proof.
  unfold _parse_type_value.
  destruct (Py.mem _ _) eqn:M; [|discriminate].
  intros [= <-]. now apply mem_In.
Qed.

Lemma apply_meta_ok {L : PythonLib} (sn : str) (line : lexed_line) (m : meta)
    (iss : list ValidationIssue) :
  meta_ok m -> Forall (fun i => code i = parse_error) iss ->
  meta_ok (fst (apply_meta sn line m iss))
  /\ Forall (fun i => code i = parse_error) (snd (apply_meta sn line m iss)).
Proof.
  intros (T & Ls & Rs) F. unfold apply_meta.
  destruct (m_name line); [now repeat split|].
  destruct (m_default line) as [g|].
  { destruct (_parse_default_value_with_quote_info g). now repeat split. }
  destruct (m_type line) as [g|].
  { destruct (_parse_type_value g) as [t|e] eqn:P; simpl.
    - split; [|exact F]. split; [|now split].
      now apply (parse_type_value_known g).
    - split; [now repeat split|]. apply Forall_app. now repeat constructor. }
  destruct (m_valid line) as [g|].
  { destruct (_parse_valid_values g) as [[lits regexes]|e]; simpl.
    - split; [|exact F]. split; [exact T|].
      split; apply or_None_not_empty.
    - split; [now repeat split|]. apply Forall_app. now repeat constructor. }
  destruct (m_note line); [now repeat split|].
  destruct (m_required line); now repeat split.
Qed.

Lemma make_option_ok {L : PythonLib} (sn : str) (m : meta) :
  meta_ok m -> option_ok (name (make_option sn m), make_option sn m).
Proof.
  intros (T & Ls & Rs). unfold option_ok. simpl.
  split; [reflexivity|]. split; [exact T|]. split; [exact Ls|].
  destruct (meta_valid_regex m) as [[|p r]|]; simpl.
  - contradiction.
  - split; [discriminate | reflexivity].
  - split; [discriminate | reflexivity].
Qed.

Lemma dict_set_Forall {V} (P : str * V -> Prop) (k : str) (v : V) (d : dict V) :
  Forall P d -> P (k, v) -> Forall P (dict_set k v d).
Proof.
  intros F H. induction F as [|[k' v'] r Hx Hr IH]; simpl.
  - now constructor.
  - destruct (Py.eqb k k') eqn:E.
    + apply eqb_spec in E. subst k'. now constructor.
    + now constructor.
Qed.

Lemma close_block_ok {L : PythonLib} (st : scan_state) :
  scan_ok st -> scan_ok (close_block st) /\ scan_block (close_block st) = None.
Proof.
  intros (W & O & F & B). unfold close_block.
  destruct (scan_block st) as [[sn m]|] eqn:E.
  - split; [|reflexivity]. split; [|split; [|split]]; simpl.
    + now apply dict_set_wf.
    + apply dict_set_Forall; [exact O | now apply make_option_ok].
    + destruct (dict_mem _ _); [|exact F].
      apply Forall_app. now repeat constructor.
    + exact I.
  - split; [|exact E]. unfold scan_ok. now rewrite E.
Qed.

Lemma scan_outside_ok {L : PythonLib} (st : scan_state) (line : lexed_line) :
  scan_ok st -> scan_block st = None -> scan_ok (scan_outside st line).
Proof.
  intros (W & O & F & B) E. unfold scan_outside.
  destruct (header line) as [sn|].
  - split; [exact W|]. split; [exact O|]. split; [exact F|]. simpl.
    split; [now left|]. split; discriminate.
  - unfold scan_ok. now rewrite E.
Qed.

Lemma scan_line_ok {L : PythonLib} (st : scan_state) (line : lexed_line) :
  scan_ok st -> scan_ok (scan_line st line).
Proof.
  intros H. unfold scan_line.
  destruct (scan_block st) as [[sn m]|] eqn:E.
  - destruct (negb (is_comment line) || _).
    + destruct (close_block_ok st H) as [H' E'].
      now apply scan_outside_ok.
    + destruct H as (W & O & F & B). rewrite E in B.
      destruct (apply_meta_ok sn line m (scan_issues st) B F) as [Hm Hi].
      destruct (apply_meta sn line m (scan_issues st)) as [m' iss'].
      now split; [|split; [|split]].
  - now apply scan_outside_ok.
Qed.

Lemma scan_lines_ok {L : PythonLib} (lines : list lexed_line) :
  forall st, scan_ok st -> scan_ok (fold_left scan_line lines st).
Proof.
  induction lines as [|l r IH]; intros st H; [exact H|].
  simpl. apply IH. now apply scan_line_ok.
Qed.

(** X12. Whatever the template, the extracted schema is a dictionary
    with one entry per name; every option is stored under its own name,
    has one of the five types, has its lists absent rather than empty
    and displays exactly the patterns it compiled; and every issue of
    the extraction is a parse_error. *)
Theorem extracted_schema_is_well_formed {L : PythonLib} (path : str)
    (file : file_read lexed_line) :
  dict_wf (fst (parse_env_example_schema path file))
  /\ Forall option_ok (fst (parse_env_example_schema path file))
  /\ Forall (fun i => code i = parse_error)
            (snd (parse_env_example_schema path file)).
Proof.
  destruct file as [|e|lines]; simpl.
  - repeat split; repeat constructor.
  - repeat split; repeat constructor.
  - assert (H : scan_ok (close_block
                           (fold_left scan_line lines (mkScan [] [] None)))).
    { apply close_block_ok, scan_lines_ok.
      repeat split; constructor. }
    destruct H as (W & O & F & _).
    destruct (Py.truthy _); simpl; repeat split; try assumption.
    apply Forall_app. now repeat constructor.
Qed.

Lemma truthy_dict_set {V} (k : str) (v : V) (d : dict V) :
  Py.truthy (dict_set k v d) = true.
Proof.
  destruct d as [|[k' v'] r]; simpl; [reflexivity|].
  now destruct (Py.eqb k k').
Qed.

Lemma close_block_busy {L : PythonLib} (st : scan_state) :
  Py.truthy (scan_schema (close_block st)) = scan_busy st
  /\ scan_block (close_block st) = None.
Proof.
  unfold close_block, scan_busy.
  destruct (scan_block st) as [[sn m]|] eqn:E; simpl.
  - split; [apply truthy_dict_set | reflexivity].
  - now rewrite E.
Qed.

Lemma scan_outside_busy {L : PythonLib} (st : scan_state) (line : lexed_line) :
  scan_busy (scan_outside st line)
  = scan_busy st || match header line with Some _ => true | None => false end.
Proof.
  unfold scan_outside, scan_busy.
  destruct (header line); simpl.
  - now rewrite orb_true_r.
  - now rewrite orb_false_r.
Qed.

Lemma scan_line_busy {L : PythonLib} (st : scan_state) (line : lexed_line) :
  scan_busy (scan_line st line)
  = scan_busy st || match header line with Some _ => true | None => false end.
Proof.
  unfold scan_line. destruct (scan_block st) as [[sn m]|] eqn:E.
  - assert (B : scan_busy st = true) by (unfold scan_busy; now rewrite E).
    rewrite B. simpl. destruct (negb (is_comment line) || _).
    + rewrite scan_outside_busy. unfold scan_busy at 1.
      destruct (close_block_busy st) as [-> ->]. now rewrite B.
    + now destruct (apply_meta sn line m (scan_issues st)).
  - apply scan_outside_busy.
Qed.

Lemma scan_lines_busy {L : PythonLib} (lines : list lexed_line) :
  forall st, scan_busy (fold_left scan_line lines st)
             = scan_busy st || has_header lines.
Proof.
  induction lines as [|l r IH]; intros st; simpl.
  - now rewrite orb_false_r.
  - rewrite IH, scan_line_busy. now rewrite orb_assoc.
Qed.

Lemma scan_lines_idle {L : PythonLib} (lines : list lexed_line) :
  has_header lines = false ->
  fold_left scan_line lines (mkScan [] [] None) = mkScan [] [] None.
Proof.
  induction lines as [|l r IH]; intros H; [reflexivity|].
  simpl in H. apply orb_false_elim in H as [Hl Hr]. simpl.
  unfold scan_line at 2, scan_outside. simpl.
  destruct (header l); [discriminate | now apply IH].
Qed.

Lemma apply_meta_settings {L : PythonLib} (sn : str) (line : lexed_line)
    (m : meta) (iss : list ValidationIssue) :
  Forall (fun i => setting i <> None) iss ->
  Forall (fun i => setting i <> None) (snd (apply_meta sn line m iss)).
Proof.
  intros F. unfold apply_meta.
  destruct (m_name line); [exact F|].
  destruct (m_default line) as [g|].
  { now destruct (_parse_default_value_with_quote_info g). }
  destruct (m_type line) as [g|].
  { destruct (_parse_type_value g); simpl; [exact F|].
    apply Forall_app. split; [exact F|]. now repeat constructor. }
  destruct (m_valid line) as [g|].
  { destruct (_parse_valid_values g) as [[lits regexes]|e]; simpl; [exact F|].
    apply Forall_app. split; [exact F|]. now repeat constructor. }
  destruct (m_note line); [exact F|].
  now destruct (m_required line).
Qed.

Lemma close_block_settings {L : PythonLib} (st : scan_state) :
  Forall (fun i => setting i <> None) (scan_issues st) ->
  Forall (fun i => setting i <> None) (scan_issues (close_block st)).
Proof.
  intros F. unfold close_block. destruct (scan_block st) as [[sn m]|]; [|exact F].
  simpl. destruct (dict_mem _ _); [|exact F].
  apply Forall_app. split; [exact F|]. now repeat constructor.
Qed.

Lemma scan_line_settings {L : PythonLib} (st : scan_state) (line : lexed_line) :
  Forall (fun i => setting i <> None) (scan_issues st) ->
  Forall (fun i => setting i <> None) (scan_issues (scan_line st line)).
Proof.
  intros F.
  assert (O : forall st', Forall (fun i => setting i <> None) (scan_issues st') ->
                Forall (fun i => setting i <> None)
                       (scan_issues (scan_outside st' line))).
  { intros st' F'. unfold scan_outside. now destruct (header line). }
  unfold scan_line. destruct (scan_block st) as [[sn m]|]; [|now apply O].
  destruct (negb (is_comment line) || _).
  - now apply O, close_block_settings.
  - pose proof (apply_meta_settings sn line m (scan_issues st) F) as K.
    now destruct (apply_meta sn line m (scan_issues st)).
Qed.

Lemma scan_lines_settings {L : PythonLib} (lines : list lexed_line) :
  forall st, Forall (fun i => setting i <> None) (scan_issues st) ->
             Forall (fun i => setting i <> None)
                    (scan_issues (fold_left scan_line lines st)).
Proof.
  induction lines as [|l r IH]; intros st F; [exact F|].
  simpl. apply IH. now apply scan_line_settings.
Qed.

(** X13. The extraction of a template that can be read warns that no
    block was found exactly when no line is a header: then the schema is
    empty and that warning is the only issue; with a header line the
    schema is not empty and the warning is not given. *)
Theorem no_blocks_warning_iff_no_header {L : PythonLib} (path : str)
    (lines : list lexed_line) :
  (has_header lines = false ->
   parse_env_example_schema path (Lines lines) = ([], [no_blocks_warning]))
  /\ (has_header lines = true ->
      fst (parse_env_example_schema path (Lines lines)) <> []
      /\ ~ In no_blocks_warning
              (snd (parse_env_example_schema path (Lines lines)))).
Proof.
  split.
  - intros H. simpl. now rewrite (scan_lines_idle lines H).
  - intros H. simpl.
    destruct (close_block_busy (fold_left scan_line lines (mkScan [] [] None)))
      as [T _].
    rewrite scan_lines_busy, H in T. simpl in T. rewrite T. simpl. split.
    + intros E. rewrite E in T. discriminate T.
    + intros I.
      assert (F : Forall (fun i => setting i <> None)
                    (scan_issues
                       (close_block
                          (fold_left scan_line lines (mkScan [] [] None))))).
      { apply close_block_settings, scan_lines_settings. constructor. }
      rewrite Forall_forall in F. now apply (F _ I).
Qed.

Lemma no_blocks_warning_iff_no_header_witness :
  @parse_env_example_schema sample_lib (py "env.example")
    (Lines [default_line (py "x"); mkLine false None None None None None None None])
  = ([], [no_blocks_warning])
  /\ fst (@parse_env_example_schema sample_lib (py "env.example")
            (Lines [header_line (py "A")])) <> [].
Proof.
  split.
  - apply (proj1 (@no_blocks_warning_iff_no_header sample_lib (py "env.example")
                    [default_line (py "x");
                     mkLine false None None None None None None None])).
    reflexivity.
  - apply (proj2 (@no_blocks_warning_iff_no_header sample_lib (py "env.example")
                    [header_line (py "A")])).
    reflexivity.
Defined.

Lemma apply_meta_fst {L : PythonLib} (sn : str) (line : lexed_line) (m : meta)
    (iss iss' : list ValidationIssue) :
  fst (apply_meta sn line m iss) = fst (apply_meta sn line m iss').
Proof.
  unfold apply_meta.
  destruct (m_name line); [reflexivity|].
  destruct (m_default line) as [g|].
  { now destruct (_parse_default_value_with_quote_info g). }
  destruct (m_type line) as [g|]; [now destruct (_parse_type_value g)|].
  destruct (m_valid line) as [g|].
  { now destruct (_parse_valid_values g) as [[lits regexes]|e]. }
  destruct (m_note line); [reflexivity|].
  now destruct (m_required line).
Qed.

Lemma block_meta_fst {L : PythonLib} (sn : str) (lines : list lexed_line) :
  forall m iss iss',
    fst (block_meta sn lines m iss) = fst (block_meta sn lines m iss').
Proof.
  unfold block_meta. induction lines as [|l r IH]; intros m iss iss';
    [reflexivity|].
  cbn [fold_left fst snd].
  pose proof (apply_meta_fst sn l m iss iss') as E.
  destruct (apply_meta sn l m iss) as [m1 i1].
  destruct (apply_meta sn l m iss') as [m2 i2]. simpl in E. subst m2.
  apply (IH m1 i1 i2).
Qed.

Lemma scan_block_lines {L : PythonLib} (sn : str) (lines : list lexed_line) :
  forallb is_meta_line lines = true ->
  forall sch iss m,
    fold_left scan_line lines (mkScan sch iss (Some (sn, m)))
    = mkScan sch (snd (block_meta sn lines m iss))
             (Some (sn, fst (block_meta sn lines m iss))).
Proof.
  unfold block_meta. induction lines as [|l r IH]; intros H sch iss m;
    [reflexivity|].
  simpl in H. apply andb_prop in H as [Hl Hr].
  cbn [fold_left fst snd].
  unfold is_meta_line in Hl. apply andb_prop in Hl as [Hc Hh].
  assert (E : scan_line (mkScan sch iss (Some (sn, m))) l
              = mkScan sch (snd (apply_meta sn l m iss))
                       (Some (sn, fst (apply_meta sn l m iss)))).
  { unfold scan_line. cbn [scan_block scan_schema scan_issues].
    rewrite Hc. destruct (header l); [discriminate Hh|]. cbn [negb orb].
    now destruct (apply_meta sn l m iss). }
  rewrite E. rewrite (IH Hr).
  now destruct (apply_meta sn l m iss).
Qed.

Lemma scan_line_header {L : PythonLib} (st : scan_state) (line : lexed_line)
    (sn : str) :
  header line = Some sn ->
  scan_block (scan_line st line) = Some (sn, meta_init).
Proof.
  intros H. unfold scan_line, scan_outside.
  destruct (scan_block st) as [[sn' m]|].
  - rewrite H, orb_true_r. reflexivity.
  - now rewrite H.
Qed.

(** X14. The last block of a template wins: when a template ends with a
    header followed by meta-lines only, the option built from that
    block is the one the schema holds under its name, whatever blocks
    came before. *)
Theorem last_block_wins {L : PythonLib} (path : str)
    (before metas : list lexed_line) (hl : lexed_line) (sn : str) :
  header hl = Some sn -> forallb is_meta_line metas = true ->
  let option := make_option sn (fst (block_meta sn metas meta_init [])) in
  dict_get (name option)
           (fst (parse_env_example_schema path (Lines (before ++ hl :: metas))))
  = Some option.
Proof.
  intros H M option.
  assert (E : fst (parse_env_example_schema path (Lines (before ++ hl :: metas)))
              = scan_schema
                  (close_block
                     (fold_left scan_line (before ++ hl :: metas)
                                (mkScan [] [] None)))).
  { simpl. now destruct (Py.truthy _). }
  rewrite E, fold_left_app. simpl fold_left.
  pose proof (scan_line_header
                (fold_left scan_line before (mkScan [] [] None)) hl sn H) as B.
  destruct (scan_line (fold_left scan_line before (mkScan [] [] None)) hl)
    as [sch iss blk]. simpl in B. subst blk.
  rewrite (scan_block_lines sn metas M). unfold close_block. simpl.
  rewrite (block_meta_fst sn metas meta_init iss []).
  apply dict_get_set_same.
Qed.

Lemma last_block_wins_witness :
  dict_get (py "PORT")
    (fst (@parse_env_example_schema sample_lib (py "env.example")
            (Lines ([header_line (py "PORT"); default_line (py "'80'")]
                    ++ header_line (py "PORT")
                    :: [default_line (py "443")]))))
  = Some (@mkOption sample_lib (py "PORT") (py "string") (Some (py "443"))
            false None None None None false).
Proof.
  apply (@last_block_wins sample_lib (py "env.example")
           [header_line (py "PORT"); default_line (py "'80'")]
           [default_line (py "443")] (header_line (py "PORT")) (py "PORT"));
    reflexivity.
Defined.

(** ** From the files to the report *)

Lemma load_dotenv_wf (path : str) (file : file_read env_line) :
  dict_wf (fst (load_dotenv path file)).
Proof.
  destruct file as [|e|lines]; simpl; try constructor.
  apply load_loop_invariant; constructor.
Qed.

Lemma parse_schema_wf {L : PythonLib} (path : str) (file : file_read lexed_line) :
  dict_wf (fst (parse_env_example_schema path file)).
Proof.
  destruct file as [|e|lines]; simpl; try constructor.
  assert (H : scan_ok (close_block
                         (fold_left scan_line lines (mkScan [] [] None)))).
  { apply close_block_ok, scan_lines_ok. repeat split; constructor. }
  destruct H as (W & _). now destruct (Py.truthy _).
Qed.

Lemma issues_for_at_most_one {L : PythonLib}
    (schema : dict ConfigOption) (env : dict str) (strict civ : bool) (n : str) :
  dict_wf schema -> dict_wf env ->
  List.length (issues_for n (validate_env schema env strict civ)) <= 1.
Proof.
  intros Ws We. destruct (dict_mem n schema) eqn:M.
  - apply dict_mem_In, in_keys_entry in M as (o & Ho).
    rewrite (issues_for_entry env civ schema strict n o Ws Ho).
    apply check_option_length.
  - apply dict_mem_false in M. unfold issues_for.
    rewrite validate_env_issues, filter_app.
    rewrite (schema_issues_absent env civ n schema M), app_nil_r.
    destruct strict; [|simpl; lia].
    apply unknown_filter_length. now apply unknown_keys_nodup.
Qed.

(** X15. Whatever the template and the .env file, the report of
    validating the loaded configuration against the extracted schema
    has at most one issue per name, and a name of the schema never has
    an unknown issue. *)
Theorem pipeline_one_issue_per_name {L : PythonLib}
    (example_path env_path : str) (example : file_read lexed_line)
    (dotenv : file_read env_line) (strict civ : bool) :
  let schema := fst (parse_env_example_schema example_path example) in
  let env := fst (load_dotenv env_path dotenv) in
  forall n,
    List.length (issues_for n (validate_env schema env strict civ)) <= 1
    /\ (In n (keys schema) ->
        forall i, In i (issues_for n (validate_env schema env strict civ)) ->
                  code i <> unknown).
Proof.
  intros schema env n. split.
  - apply issues_for_at_most_one; [apply parse_schema_wf | apply load_dotenv_wf].
  - intros Hn i Hi. apply in_keys_entry in Hn as (o & Ho).
    rewrite (issues_for_entry env civ schema strict n o
               (parse_schema_wf example_path example) Ho) in Hi.
    apply (check_option_setting env civ n o) in Hi as [_ [H|[H|H]]];
      congruence.
Qed.

(** ** The token interpreter *)

Lemma flags_fold_lor (s : str) : forall acc : Z,
  fold_left (fun flags ch => Z.lor flags (flag_map ch)) s acc
  = Z.lor acc (_map_regex_flags s).
Proof.
  unfold _map_regex_flags. induction s as [|c r IH]; intros acc; simpl.
  - now rewrite Z.lor_0_r.
  - rewrite (IH (Z.lor acc (flag_map c))), (IH (flag_map c)).
    symmetry. apply Z.lor_assoc.
Qed.

Lemma flags_app (a b : str) :
  _map_regex_flags (a ++ b) = Z.lor (_map_regex_flags a) (_map_regex_flags b).
Proof.
  unfold _map_regex_flags at 1. rewrite fold_left_app.
  fold (_map_regex_flags a). apply flags_fold_lor.
Qed.

Lemma flags_cons (c : ascii) (s : str) :
  _map_regex_flags (c :: s) = Z.lor (flag_map c) (_map_regex_flags s).
Proof. apply (flags_app [c] s). Qed.

(** X16. The flags of a regex do not depend on the order of the flag
    letters nor on their repetition, and a letter that names no flag
    (u included) changes nothing. *)
Theorem regex_flags_order_free :
  (forall a b, Permutation a b -> _map_regex_flags a = _map_regex_flags b)
  /\ (forall a, _map_regex_flags (a ++ a) = _map_regex_flags a)
  /\ (forall c a b,
         flag_map c = 0%Z ->
         _map_regex_flags (a ++ c :: b) = _map_regex_flags (a ++ b)).
Proof.
  split; [|split].
  - induction 1 as [|x l l' _ IH|x y l|l l' l'' _ IH1 _ IH2].
    + reflexivity.
    + now rewrite !flags_cons, IH.
    + rewrite !flags_cons, !Z.lor_assoc. f_equal. apply Z.lor_comm.
    + congruence.
  - intros a. rewrite flags_app. apply Z.lor_diag.
  - intros c a b H. rewrite !flags_app, flags_cons, H. reflexivity.
Qed.

Lemma regex_flags_order_free_witness :
  _map_regex_flags (py "ixs") = _map_regex_flags (py "sxi").
Proof.
  apply (proj1 regex_flags_order_free (py "ixs") (py "sxi")).
  change (py "ixs") with ([ "i"%char ] ++ py "xs").
  change (py "sxi") with (py "sx" ++ [ "i"%char ]).
  eapply perm_trans; [apply Permutation_app_comm|].
  apply Permutation_app_tail. apply perm_swap.
Defined.

Lemma flags_tail_spec (r f : str) :
  flags_tail r = Some f ->
  (r = f \/ r = f ++ [newline]) /\ forallb is_letter f = true.
Proof.
  unfold flags_tail. destruct (forallb is_letter r) eqn:A.
  - intros [= <-]. auto.
  - destruct (Py.last_char r) as [c|] eqn:Lc; [|discriminate].
    destruct (Ascii.eqb c newline && forallb is_letter (removelast r)) eqn:B;
      [|discriminate].
    intros [= <-]. apply andb_prop in B as [Bc Bl].
    apply Ascii.eqb_eq in Bc. subst c. split; [|exact Bl]. right.
    destruct (exists_last (l := r)) as (r' & c & ->).
    { intros ->. discriminate Lc. }
    rewrite last_char_app in Lc. injection Lc as ->.
    now rewrite removelast_last.
Qed.

Lemma slash_form_from_spec (rest : str) : forall acc p f,
  slash_form_from acc rest = Some (p, f) ->
  exists mid,
    p = acc ++ mid /\ ~ In newline mid /\ forallb is_letter f = true
    /\ (rest = mid ++ slash :: f \/ rest = mid ++ slash :: f ++ [newline]).
Proof.
  induction rest as [|c r IH]; intros acc p f; simpl; [discriminate|].
  destruct (if Ascii.eqb c slash then flags_tail r else None) as [fl|] eqn:T.
  - intros [= <- <-]. destruct (Ascii.eqb c slash) eqn:E; [|discriminate].
    apply Ascii.eqb_eq in E. subst c.
    destruct (flags_tail_spec r fl T) as [[-> | ->] Hl];
      exists []; rewrite app_nil_r; simpl; auto.
  - destruct (Ascii.eqb c newline) eqn:N; [discriminate|].
    intros H. destruct (IH _ _ _ H) as (mid & -> & Hn & Hl & Hr).
    exists (c :: mid). rewrite <- app_assoc. split; [reflexivity|].
    split.
    + intros [G|G]; [|contradiction]. subst c.
      now rewrite Ascii.eqb_refl in N.
    + split; [exact Hl|]. destruct Hr as [-> | ->]; auto.
Qed.

Lemma startswith_firstn (s p : str) :
  Py.startswith s p = true -> firstn (List.length p) s = p.
Proof.
  revert s. induction p as [|a p IH]; intros s H; [reflexivity|].
  destruct s as [|b s]; [discriminate H|].
  simpl in H. apply andb_prop in H as [E H].
  apply Ascii.eqb_eq in E. subst b. simpl. f_equal. now apply IH.
Qed.

(** X17. The display form of an allowed regex shows the token as it was
    written: for the slash form it is the token once trimmed and
    unquoted, but for one final newline; for the prefix form it is
    regex: followed by the rest of the token, the prefix having been
    written in any letter case.  The flags of the slash form are
    letters and its pattern holds no newline.  A literal is the token
    once trimmed and unquoted. *)
Theorem interpreted_token_display {L : PythonLib} (token : str) :
  let unquoted := _strip_quotes (Py.rstrip_char comma (Py.strip token)) in
  match _interpret_allowed_token token with
  | Return (Regex compiled display) =>
      (exists pattern flags_str,
          display = slash :: pattern ++ slash :: flags_str
          /\ (unquoted = display \/ unquoted = display ++ [newline])
          /\ forallb is_letter flags_str = true /\ ~ In newline pattern
          /\ re_compile pattern (_map_regex_flags flags_str)
             = Compiled compiled)
      \/ (display = py "regex:" ++ skipn 6 unquoted
          /\ Py.lower (firstn 6 unquoted) = py "regex:"
          /\ re_compile (skipn 6 unquoted) 0%Z = Compiled compiled)
  | Return (Literal value) => value = unquoted
  | ValueError _ => True
  end.
Proof.
  intros unquoted. unfold _interpret_allowed_token. fold unquoted.
  destruct (slash_form unquoted) as [[pattern flags_str]|] eqn:S.
  - destruct (re_compile pattern (_map_regex_flags flags_str)) as [c|e|e] eqn:C;
      [|exact I..].
    left. exists pattern, flags_str. unfold slash_form in S.
    destruct unquoted as [|c0 rest]; [discriminate|].
    destruct (Ascii.eqb c0 slash) eqn:E; [|discriminate].
    apply Ascii.eqb_eq in E. subst c0.
    destruct (slash_form_from_spec rest [] _ _ S) as (mid & -> & Hn & Hl & Hr).
    simpl app. split; [reflexivity|].
    split; [|now repeat split].
    destruct Hr as [-> | ->]; [now left|]. right. simpl.
    now rewrite <- app_assoc.
  - destruct (Py.startswith (Py.lower unquoted) (py "regex:")) eqn:P;
      [|reflexivity].
    destruct (re_compile (skipn 6 unquoted) 0%Z) as [c|e|e] eqn:C;
      [|exact I..].
    right. split; [reflexivity|]. split; [|reflexivity].
    unfold Py.lower in *. rewrite <- firstn_map.
    apply (startswith_firstn _ (py "regex:") P).
Qed.

Lemma parse_valid_loop_spec {L : PythonLib} (tokens : list str) :
  forall literals regex_list,
    parse_valid_loop tokens literals regex_list
    = match first_error tokens with
      | Some e => ValueError e
      | None => Return (literals ++ literals_of tokens,
                        regex_list ++ regexes_of tokens)
      end.
Proof.
  induction tokens as [|tok r IH]; intros literals regex_list; simpl.
  - now rewrite !app_nil_r.
  - destruct (_interpret_allowed_token tok) as [[val|compiled disp]|e];
      [| |reflexivity].
    + rewrite IH. destruct (first_error r); [reflexivity|].
      now rewrite <- app_assoc.
    + rewrite IH. destruct (first_error r); [reflexivity|].
      now rewrite <- app_assoc.
Qed.

Lemma partition_length {L : PythonLib} (tokens : list str) :
  first_error tokens = None ->
  List.length (literals_of tokens) + List.length (regexes_of tokens)
  = List.length tokens.
Proof.
  induction tokens as [|tok r IH]; simpl; [reflexivity|].
  destruct (_interpret_allowed_token tok) as [[val|compiled disp]|e];
    [| |discriminate]; intros H; simpl; rewrite <- (IH H); lia.
Qed.

(** X18. A valid_values line is taken whole or not at all.  When every
    token is understood, the literals and the patterns of the block
    become those of the line, each in the order of the tokens and every
    token in one of the two lists; when a token is a regex that does
    not compile, the block keeps the lists it had and one parse_error
    is added, so the literals of that line are lost as well. *)
Theorem valid_values_line_all_or_nothing {L : PythonLib} (setting_name g : str)
    (m : meta) (iss : list ValidationIssue) :
  let tokens := _tokenize_list g in
  match first_error tokens with
  | Some e =>
      apply_meta setting_name (valid_line g) m iss
      = (m, iss ++ [mkIssue error parse_error
                      (py "Invalid valid_values for " ++ setting_name
                       ++ py ": " ++ e)
                      (Some setting_name) None])
  | None =>
      meta_valid_literals (fst (apply_meta setting_name (valid_line g) m iss))
      = or_None (literals_of tokens)
      /\ meta_valid_regex (fst (apply_meta setting_name (valid_line g) m iss))
         = or_None (regexes_of tokens)
      /\ snd (apply_meta setting_name (valid_line g) m iss) = iss
      /\ List.length (literals_of tokens) + List.length (regexes_of tokens)
         = List.length tokens
  end.
Proof.
  intros tokens. unfold apply_meta, valid_line, _parse_valid_values. simpl.
  fold tokens. rewrite parse_valid_loop_spec.
  destruct (first_error tokens) eqn:E; [reflexivity|].
  simpl. repeat split. now apply partition_length.
Qed.

(** ** Values that differ in spelling only *)




(** ** A quoted default, from the template to the .env file *)





(** ** The allowed values as they are shown *)

(** X21. For an option of an extracted schema the allowed values are
    shown alike everywhere: the list an invalid_value issue carries and
    the text of the documentation and the scaffold are the literals
    followed by the display forms of exactly the patterns the
    validation tries. *)
Theorem allowed_values_shown_alike {L : PythonLib} (n raw_value : str)
    (o : ConfigOption) :
  option_ok (n, o) ->
  let shown := or_empty (valid_literals o)
               ++ map snd (or_empty (_compiled_regex o)) in
  details (invalid_value_issue n o raw_value)
  = Some (DetailsAllowed shown raw_value)
  /\ _combine_allowed_for_display o = join_str (py ", ") shown.
Proof.
  intros (_ & _ & _ & _ & R) shown. simpl in R.
  assert (E : or_empty (valid_regex o) = map snd (or_empty (_compiled_regex o))).
  { rewrite R. now destruct (_compiled_regex o). }
  unfold invalid_value_issue, _combine_allowed_for_display, shown. simpl.
  rewrite E. split; [reflexivity|].
  destruct (or_empty (valid_literals o));
    destruct (map snd (or_empty (_compiled_regex o))); reflexivity.
Qed.

Lemma allowed_values_shown_alike_witness :
  details (invalid_value_issue (py "PORT") port_option (py "8080"))
  = Some (DetailsAllowed [py "80"; py "443"; py "http"; py "/+8080/"]
                         (py "8080"))
  /\ _combine_allowed_for_display port_option = py "80, 443, http, /+8080/".
Proof.
  apply (@allowed_values_shown_alike sample_lib (py "PORT") (py "8080")
           port_option).
  unfold option_ok. simpl.
  split; [reflexivity|]. split; [now right; left|].
  split; [discriminate|]. split; [discriminate | reflexivity].
Defined.
